(** * A shallow embedding of parts of TSDuck (libtsduck and tsplugins)

    Bytes are integers in [0, 256); a [ByteBlock] is a list of bytes. *)

From Stdlib Require Import String Ascii ZArith List Lia Bool.
Import ListNotations.
Open Scope Z_scope.
Set Warnings "-abstract-large-number".

(* ------------------------------------------------------------------------ *)
(** ** Common definitions *)

Definition ByteBlock := list Z.

(** Truncation to [uint8_t]. *)
Definition u8 (z : Z) : Z := z mod 256.

Definition is_byte (z : Z) : Prop := 0 <= z < 256.

(** [GetUInt16] and [GetUInt32]: big-endian reads (missing bytes read as 0). *)
Definition GetUInt16 (b : ByteBlock) : Z :=
  nth 0 b 0 * 256 + nth 1 b 0.

Definition GetUInt32 (b : ByteBlock) : Z :=
  ((nth 0 b 0 * 256 + nth 1 b 0) * 256 + nth 2 b 0) * 256 + nth 3 b 0.

(** [PutUInt16] and [PutUInt32]: big-endian writes. *)
Definition PutUInt16 (v : Z) : ByteBlock :=
  [u8 (Z.shiftr v 8); u8 v].

Definition PutUInt32 (v : Z) : ByteBlock :=
  [u8 (Z.shiftr v 24); u8 (Z.shiftr v 16); u8 (Z.shiftr v 8); u8 v].

Definition DID_PRIV_DATA_SPECIF : Z := 95.  (* 0x5F *)
Definition DID_AC3 : Z := 106.              (* 0x6A *)

(* ------------------------------------------------------------------------ *)
(** ** [ts::Descriptor] (tsDescriptor.cpp) *)

Module Descriptor.

(** A descriptor holds a (shared) pointer to a byte block, possibly null. *)
Record Descriptor := mkDescriptor { _data : option ByteBlock }.

(** The size check shared by the constructors:
    [size >= 2 && size < 258 && addr[1] == size - 2]. *)
Definition size_check (addr : ByteBlock) (size : Z) : bool :=
  (2 <=? size) && (size <? 258) && (nth 1 addr 0 =? size - 2).

(** [Descriptor(const void* addr, size_t size)]: the first [size] bytes of
    [addr] are copied when the check succeeds. *)
Definition from_raw (addr : ByteBlock) (size : nat) : Descriptor :=
  mkDescriptor (if size_check addr (Z.of_nat size)
                then Some (firstn size addr) else None).

(** [Descriptor(const ByteBlock& bb)]. *)
Definition from_bytes (bb : ByteBlock) : Descriptor :=
  mkDescriptor (if size_check bb (Z.of_nat (length bb)) then Some bb else None).

Inductive CopyShare := SHARE | COPY.

(** [Descriptor(const ByteBlockPtr& bbp, CopyShare mode)]; [None] is a null
    pointer. Copy and share give the same contents. *)
Definition from_ptr (bbp : option ByteBlock) (mode : CopyShare) : Descriptor :=
  match bbp with
  | Some bb =>
      if size_check bb (Z.of_nat (length bb)) then
        match mode with
        | SHARE => mkDescriptor (Some bb)
        | COPY => mkDescriptor (Some bb)
        end
      else mkDescriptor None
  | None => mkDescriptor None
  end.

(** Modelled from the spec: [isValid()], [tag()], [payload()] and
    [payloadSize()] (declared in tsDescriptor.h, not in the sources). A
    descriptor is valid when it holds a byte block, which is
    [tag | length | payload]. *)
Definition isValid (d : Descriptor) : bool :=
  match _data d with Some _ => true | None => false end.

Definition tag (d : Descriptor) : Z :=
  match _data d with Some bb => nth 0 bb 0 | None => 0 end.

Definition payload (d : Descriptor) : ByteBlock :=
  match _data d with Some bb => skipn 2 bb | None => [] end.

Definition payloadSize (d : Descriptor) : Z := Z.of_nat (length (payload d)).

End Descriptor.

(* ------------------------------------------------------------------------ *)
(** ** [ts::AC3Descriptor] (tsAC3Descriptor.cpp) *)

Module AC3.
Import Descriptor.

Record AC3Descriptor := mkAC3 {
  _is_valid : bool;
  component_type : option Z;   (* Variable<uint8_t> *)
  bsid : option Z;
  mainid : option Z;
  asvc : option Z;
  additional_info : ByteBlock
}.

Definition set (v : option Z) : bool :=
  match v with Some _ => true | None => false end.

(** [appendUInt8 (v.value())] when [v.set()]. *)
Definition append_opt (v : option Z) : ByteBlock :=
  match v with Some x => [u8 x] | None => [] end.

(** [AC3Descriptor::serialize]. *)
Definition serialize (a : AC3Descriptor) : Descriptor :=
  let flags := Z.lor (Z.lor (Z.lor (if set (component_type a) then 128 else 0)
                                   (if set (bsid a) then 64 else 0))
                            (if set (mainid a) then 32 else 0))
                     (if set (asvc a) then 16 else 0) in
  (* ByteBlock bbp(2), then appends *)
  let bb0 := [0; 0] ++ [u8 flags] ++ append_opt (component_type a)
               ++ append_opt (bsid a) ++ append_opt (mainid a)
               ++ append_opt (asvc a) ++ additional_info a in
  (* bbp[0] = _tag; bbp[1] = uint8_t(bbp->size() - 2) *)
  let bb := DID_AC3 :: u8 (Z.of_nat (length bb0) - 2) :: skipn 2 bb0 in
  from_ptr (Some bb) SHARE.

(** One optional field read: [if ((flags & mask) != 0 && size >= 1)]. *)
Definition read_opt (flags mask : Z) (data : ByteBlock) : option Z * ByteBlock :=
  if negb (Z.land flags mask =? 0) then
    match data with
    | x :: rest => (Some x, rest)
    | [] => (None, [])
    end
  else (None, data).

(** [AC3Descriptor::deserialize]. *)
Definition deserialize (desc : Descriptor) : AC3Descriptor :=
  let valid := isValid desc && (tag desc =? DID_AC3) && (1 <=? payloadSize desc) in
  if valid then
    match payload desc with
    | flags :: data0 =>
        let (ct, data1) := read_opt flags 128 data0 in
        let (bs, data2) := read_opt flags 64 data1 in
        let (mi, data3) := read_opt flags 32 data2 in
        let (av, data4) := read_opt flags 16 data3 in
        mkAC3 true ct bs mi av data4
    | [] => mkAC3 true None None None None []
    end
  else mkAC3 false None None None None [].

(** Number of optional bytes announced by a flags byte. *)
Definition announced (flags : Z) : nat :=
  length (filter (fun m => negb (Z.land flags m =? 0)) [128; 64; 32; 16]).

(** A well-formed binary AC3_descriptor: tag 0x6A, a length byte equal to
    the payload size, a flags byte whose reserved low nibble is zero, and
    one optional byte present for each flag bit set. *)
Definition well_formed (b : ByteBlock) : Prop :=
  Forall is_byte b /\
  exists len flags rest,
    b = DID_AC3 :: len :: flags :: rest /\
    len = Z.of_nat (length (flags :: rest)) /\
    len <= 255 /\
    Z.land flags 15 = 0 /\
    (announced flags <= length rest)%nat.

End AC3.


(* ------------------------------------------------------------------------ *)
(** ** Structured (XML) form of the AC-3 descriptor *)

Module XMLModel.

(** An XML element as seen by [fromXML]: its name, its attributes and its
    hexadecimal text children (already decoded to bytes). *)
Record Element := mkElement {
  el_name : string;
  el_attributes : list (string * string);
  el_hexa_children : list (string * ByteBlock)
}.

Fixpoint lookup {A} (k : string) (l : list (string * A)) : option A :=
  match l with
  | [] => None
  | (k', v) :: r => if String.eqb k k' then Some v else lookup k r
  end.

(** [ToIntegerDigit] (tsToInteger.cpp). *)
Definition ToIntegerDigit (c : ascii) (base defaultValue : Z) : Z :=
  let n := Z.of_nat (nat_of_ascii c) in
  let digit :=
    if (48 <=? n) && (n <=? 57) then n - 48            (* '0'..'9' *)
    else if (97 <=? n) && (n <=? 122) then 10 + n - 97  (* 'a'..'z' *)
    else if (65 <=? n) && (n <=? 90) then 10 + n - 65   (* 'A'..'Z' *)
    else -1 in
  if (0 <=? digit) && (digit <? base) then digit else defaultValue.

Fixpoint digits_value (base acc : Z) (cs : list ascii) : option Z :=
  match cs with
  | [] => Some acc
  | c :: r =>
      let d := ToIntegerDigit c base (-1) in
      if d <? 0 then None else digits_value base (acc * base + d) r
  end.

(** Modelled from the spec: [ToInteger] (tsToInteger.h, not in the sources).
    "Integer attributes accept decimal or hexadecimal forms" ([0xNN]). *)
Definition ToInteger (s : string) : option Z :=
  match list_ascii_of_string s with
  | c0 :: c1 :: (_ :: _) as ds =>
      if Ascii.eqb c0 "0"%char && (Ascii.eqb c1 "x"%char || Ascii.eqb c1 "X"%char)
      then digits_value 16 0 ds
      else digits_value 10 0 (c0 :: c1 :: ds)
  | [] => None
  | cs => digits_value 10 0 cs
  end.

(** Modelled from the spec: [XML::getOptionalIntAttribute] for a
    [Variable<uint8_t>] (tsXML.cpp, not in the sources). An absent attribute
    leaves the field unset; a present one must be an integer in the range of
    the field. [None] is a failure. *)
Definition getOptionalIntAttribute (e : Element) (name : string) : option (option Z) :=
  match lookup name (el_attributes e) with
  | None => Some None
  | Some v =>
      match ToInteger v with
      | Some n => if (0 <=? n) && (n <=? 255) then Some (Some n) else None
      | None => None
      end
  end.

(** Modelled from the spec: [XML::getHexaTextChild] with an optional child
    and at most [max] bytes. An absent child gives an empty block. *)
Definition getHexaTextChild (e : Element) (name : string) (max : nat) : option ByteBlock :=
  match lookup name (el_hexa_children e) with
  | None => Some []
  | Some b => if (length b <=? max)%nat then Some b else None
  end.

(** Modelled from the spec: [checkXMLName], the element is named after the
    descriptor. *)
Definition checkXMLName (xml_name : string) (e : Element) : bool :=
  String.eqb (el_name e) xml_name.

Definition MAX_DESCRIPTOR_SIZE : nat := 257.

(** [AC3Descriptor()]: the default constructor. *)
Definition AC3_default : AC3.AC3Descriptor :=
  AC3.mkAC3 true None None None None [].

(** [AC3Descriptor::fromXML]: the conjunction is evaluated left to right and
    stops at the first failure. *)
Definition AC3_fromXML (a : AC3.AC3Descriptor) (e : Element) : AC3.AC3Descriptor :=
  let invalid := AC3.mkAC3 false (AC3.component_type a) (AC3.bsid a)
                   (AC3.mainid a) (AC3.asvc a) (AC3.additional_info a) in
  if negb (checkXMLName "AC3_descriptor" e) then invalid else
  match getOptionalIntAttribute e "component_type",
        getOptionalIntAttribute e "bsid",
        getOptionalIntAttribute e "mainid",
        getOptionalIntAttribute e "asvc",
        getHexaTextChild e "additional_info" (MAX_DESCRIPTOR_SIZE - 8) with
  | Some ct, Some bs, Some mi, Some av, Some ai => AC3.mkAC3 true ct bs mi av ai
  | _, _, _, _, _ => invalid
  end.

End XMLModel.

(* ------------------------------------------------------------------------ *)
(** ** [ts::DescriptorList] (tsDescriptorList.cpp) *)

Module DescriptorList.
Import Descriptor.

(** An element of the list: a (non-null) descriptor pointer and the PDS
    associated with it. *)
Record Element := mkElement { desc : Descriptor; pds : Z }.

Definition dummy : Element := mkElement (mkDescriptor None) 0.

(** The PDS value carried by a private_data_specifier_descriptor, as
    computed in [add]. *)
Definition pds_value (d : Descriptor) : Z :=
  if payloadSize d <? 4 then 0 else GetUInt32 (payload d).

(** [DescriptorList::add(const DescriptorPtr&)]. *)
Definition add (l : list Element) (d : Descriptor) : list Element :=
  let p :=
    if tag d =? DID_PRIV_DATA_SPECIF then pds_value d
    else match l with
         | [] => 0
         | _ => pds (last l dummy)
         end in
  l ++ [mkElement d p].

(** [DescriptorList::add(const AbstractDescriptor&)]: the serialised
    descriptor is added when it is valid. *)
Definition add_serialized (l : list Element) (d : Descriptor) : list Element :=
  if isValid d then add l d else l.

(** [PrivateDataSpecifierDescriptor::serialize]. *)
Definition PDS_descriptor (p : Z) : Descriptor :=
  from_raw ([DID_PRIV_DATA_SPECIF; 4] ++ PutUInt32 p) 6.

(** [DescriptorList::addPrivateDataSpecifier]. *)
Definition addPrivateDataSpecifier (l : list Element) (p : Z) : list Element :=
  if negb (p =? 0) && (match l with [] => true | _ => negb (pds (last l dummy) =? p) end)
  then add_serialized l (PDS_descriptor p)
  else l.

(** [DescriptorList::add(const void* data, size_t size)]; [fuel] bounds the
    number of iterations, each of which consumes at least two bytes. *)
Fixpoint add_memory (fuel : nat) (l : list Element) (data : ByteBlock) : list Element :=
  match fuel with
  | O => l
  | S f =>
      if (2 <=? length data)%nat then
        let len := Z.to_nat (nth 1 data 0 + 2) in
        if (len <=? length data)%nat
        then add_memory f (add l (from_raw data len)) (skipn len data)
        else l
      else l
  end.

(** [_list.erase(_list.begin() + n)]. *)
Fixpoint erase (n : nat) (l : list Element) : list Element :=
  match n, l with
  | _, [] => []
  | O, _ :: r => r
  | S m, e :: r => e :: erase m r
  end.

(** The search loop of [prepareRemovePDS] over the elements following the
    private_data_specifier_descriptor: [None] when a private descriptor
    (tag >= 0x80) comes first, otherwise [Some k] where [k] is the number of
    elements before the next private_data_specifier_descriptor (or the end). *)
Fixpoint search_end (rest : list Element) : option nat :=
  match rest with
  | [] => Some O
  | e :: r =>
      if 128 <=? tag (desc e) then None
      else if tag (desc e) =? DID_PRIV_DATA_SPECIF then Some O
      else option_map S (search_end r)
  end.

(** [end->pds = previous_pds] for the [k] elements after the removed one. *)
Fixpoint set_pds (k : nat) (v : Z) (rest : list Element) : list Element :=
  match k, rest with
  | O, _ => rest
  | _, [] => []
  | S k', e :: r => mkElement (desc e) v :: set_pds k' v r
  end.

(** [DescriptorList::prepareRemovePDS]: [None] is [false]; [Some l'] is
    [true] with the updated list. *)
Definition prepareRemovePDS (l : list Element) (i : nat) : option (list Element) :=
  match nth_error l i with
  | None => None
  | Some e =>
      if negb (tag (desc e) =? DID_PRIV_DATA_SPECIF) then None else
      match search_end (skipn (S i) l) with
      | None => None
      | Some k =>
          let previous_pds := match i with O => 0 | S j => pds (nth j l dummy) end in
          Some (firstn (S i) l ++ set_pds k previous_pds (skipn (S i) l))
      end
  end.

(** [DescriptorList::removeByIndex]. *)
Definition removeByIndex (l : list Element) (index : nat) : list Element * bool :=
  match nth_error l index with
  | None => (l, false)
  | Some e =>
      if tag (desc e) =? DID_PRIV_DATA_SPECIF then
        match prepareRemovePDS l index with
        | None => (l, false)
        | Some l' => (erase index l', true)
        end
      else (erase index l, true)
  end.

(** The loop of [DescriptorList::removeByTag]; [fuel] bounds the number of
    iterations, each of which removes an element or advances the iterator. *)
Fixpoint removeByTag_loop (fuel : nat) (t p : Z) (check_pds : bool)
         (it : nat) (l : list Element) (count : nat) : list Element * nat :=
  match fuel with
  | O => (l, count)
  | S f =>
      match nth_error l it with
      | None => (l, count)
      | Some e =>
          let itag := tag (desc e) in
          if (itag =? t) && (negb check_pds || (pds e =? p)) then
            if itag =? DID_PRIV_DATA_SPECIF then
              match prepareRemovePDS l it with
              | Some l' => removeByTag_loop f t p check_pds it (erase it l') (S count)
              | None => removeByTag_loop f t p check_pds (S it) l count
              end
            else removeByTag_loop f t p check_pds it (erase it l) (S count)
          else removeByTag_loop f t p check_pds (S it) l count
      end
  end.

(** [DescriptorList::removeByTag]. *)
Definition removeByTag (l : list Element) (t p : Z) : list Element * nat :=
  removeByTag_loop (length l) t p (negb (p =? 0) && (128 <=? t)) O l O.

(** The loop of [DescriptorList::removeInvalidPrivateDescriptors]:
    [for (n = 0; n < _list.size(); n++)] with an [erase] at index [n] in the
    body. *)
Fixpoint removeInvalid_loop (fuel : nat) (n : nat) (l : list Element) (count : nat)
  : list Element * nat :=
  match fuel with
  | O => (l, count)
  | S f =>
      match nth_error l n with
      | None => (l, count)
      | Some e =>
          if (pds e =? 0) && isValid (desc e) && (128 <=? tag (desc e))
          then removeInvalid_loop f (S n) (erase n l) (S count)
          else removeInvalid_loop f (S n) l count
      end
  end.

(** [DescriptorList::removeInvalidPrivateDescriptors]. *)
Definition removeInvalidPrivateDescriptors (l : list Element) : list Element * nat :=
  removeInvalid_loop (length l) O l O.

(** The operations that insert into or remove from a descriptor list. *)
Inductive Op :=
  | OpAdd (d : Descriptor)
  | OpAddSerialized (d : Descriptor)
  | OpAddMemory (data : ByteBlock)
  | OpAddPrivateDataSpecifier (p : Z)
  | OpRemoveByIndex (index : nat)
  | OpRemoveByTag (t p : Z)
  | OpRemoveInvalidPrivateDescriptors.

Definition apply_op (l : list Element) (op : Op) : list Element :=
  match op with
  | OpAdd d => add l d
  | OpAddSerialized d => add_serialized l d
  | OpAddMemory data => add_memory (length data) l data
  | OpAddPrivateDataSpecifier p => addPrivateDataSpecifier l p
  | OpRemoveByIndex i => fst (removeByIndex l i)
  | OpRemoveByTag t p => fst (removeByTag l t p)
  | OpRemoveInvalidPrivateDescriptors => fst (removeInvalidPrivateDescriptors l)
  end.

(** A list built by a sequence of operations from the empty list. *)
Definition run (ops : list Op) : list Element := fold_left apply_op ops [].

(** The PDS in force after a sequence of descriptors: the value declared by
    the last private_data_specifier_descriptor among them, or 0. *)
Definition active_pds (ds : list Descriptor) : Z :=
  fold_left (fun cur d => if tag d =? DID_PRIV_DATA_SPECIF then pds_value d else cur)
            ds 0.

End DescriptorList.

(* ------------------------------------------------------------------------ *)
(** ** [ts::EIT] binary serialisation (tsEIT.cpp) *)

Module EIT.

(** Modelled from the spec: [EncodeBCD] (tsMemoryUtils, not in the
    sources), two decimal digits in one byte. *)
Definition EncodeBCD (v : Z) : Z := ((v / 10) mod 10) * 16 + v mod 10.

(** Modelled from the spec: [EncodeMJD] (not in the sources). The start
    time is kept in its 40-bit coded form (16-bit MJD date, 24-bit BCD
    time), written as 5 bytes. *)
Definition EncodeMJD (start_time : Z) : ByteBlock :=
  [u8 (Z.shiftr start_time 32); u8 (Z.shiftr start_time 24);
   u8 (Z.shiftr start_time 16); u8 (Z.shiftr start_time 8); u8 start_time].

(** [EIT::Event]; the descriptor list is given by the contents of its
    descriptors. *)
Record Event := mkEvent {
  event_id : Z;
  start_time : Z;
  duration : Z;             (* seconds *)
  running_status : Z;       (* uint8_t *)
  CA_controlled : bool;
  descs : list ByteBlock
}.

Record EIT := mkEIT {
  _is_valid : bool;
  ts_id : Z;
  onetw_id : Z;
  segment_last : Z;
  last_table_id : Z;
  events : list Event       (* the EventMap, in increasing event_id order *)
}.

(** [DescriptorList::binarySize]. *)
Definition binarySize (ds : list ByteBlock) : nat :=
  fold_right (fun d s => (length d + s)%nat) O ds.

(** The loop of [DescriptorList::serialize] from a start index: returns the
    bytes written, the remaining size and the number of descriptors
    written. *)
Fixpoint dl_serialize (ds : list ByteBlock) (size : nat) : ByteBlock * nat * nat :=
  match ds with
  | [] => ([], size, O)
  | d :: r =>
      if (length d <=? size)%nat then
        let '(b, s, n) := dl_serialize r (size - length d) in (d ++ b, s, S n)
      else ([], size, O)
  end.

(** [DescriptorList::lengthSerialize]: the 2-byte length field with its 4
    reserved bits set to 1, the descriptor bytes, the remaining size and the
    new start index. *)
Definition lengthSerialize (ds : list ByteBlock) (size start : nat)
  : ByteBlock * ByteBlock * nat * nat :=
  let '(b, s, n) := dl_serialize (skipn start ds) (size - 2) in
  (PutUInt16 (Z.lor (Z.of_nat (length b)) 61440), b, s, (start + n)%nat).

(** The bytes written for one event description: event_id, start time,
    duration, the length field whose 4 reserved bits are overwritten by
    [flags[0] = (flags[0] & 0x0F) | (running_status << 5) |
    (CA_controlled ? 0x10 : 0x00)], then the descriptors. *)
Definition event_entry (ev : Event) (length_field descbytes : ByteBlock) : ByteBlock :=
  PutUInt16 (event_id ev) ++ EncodeMJD (start_time ev)
  ++ [EncodeBCD (duration ev / 3600); EncodeBCD ((duration ev / 60) mod 60);
      EncodeBCD (duration ev mod 60)]
  ++ [u8 (Z.lor (Z.lor (Z.land (nth 0 length_field 0) 15)
                       (Z.shiftl (running_status ev) 5))
                (if CA_controlled ev then 16 else 0));
      nth 1 length_field 0]
  ++ descbytes.

(** Serialisation state: the sections already added (section number and
    payload), the payload being built (from its first byte, so including
    the 6 fixed bytes), the remaining room and the next section number. *)
Record State := mkState {
  sections : list (nat * ByteBlock);
  data : ByteBlock;
  remain : nat;
  section_number : nat
}.

(** [EIT::addSection]. *)
Definition addSection (st : State) : State :=
  mkState (sections st ++ [(section_number st, data st)])
          (firstn 6 (data st))
          (remain st + (length (data st) - 6))
          (S (section_number st)).

(** The body of the inner [while] loop of [EIT::serialize]: returns the
    new state and the new [start_index]. *)
Definition event_step (ev : Event) (starting : bool) (start_index : nat) (st : State)
  : State * nat :=
  let st1 := if starting && (remain st <? 12 + binarySize (descs ev))%nat
             then addSection st else st in
  let '(field, b, rem, start') :=
    lengthSerialize (descs ev) (remain st1 - 10) start_index in
  let st2 := mkState (sections st1) (data st1 ++ event_entry ev field b)
                     rem (section_number st1) in
  (if (start' <? length (descs ev))%nat then addSection st2 else st2, start').

(** The inner [while (starting || start_index < event.descs.count())] loop
    of [EIT::serialize]; [fuel] bounds its iterations. *)
Fixpoint event_loop (fuel : nat) (ev : Event) (starting : bool) (start_index : nat)
         (st : State) : State :=
  match fuel with
  | O => st
  | S f =>
      if starting || (start_index <? length (descs ev))%nat then
        let (st3, start') := event_step ev starting start_index st in
        event_loop f ev false start' st3
      else st
  end.

Section Serialize.

(** [MAX_PSI_LONG_SECTION_PAYLOAD_SIZE], the size of the payload buffer. *)
Variable MAX_PSI_LONG_SECTION_PAYLOAD_SIZE : nat.

(** One iteration of the loop on events. *)
Definition add_event (st : State) (ev : Event) : State :=
  let st' := if (remain st <? 12)%nat then addSection st else st in
  event_loop (S (S (length (descs ev)))) ev true O st'.

(** [EIT::serialize]: the list of sections (number, payload). *)
Definition serialize (t : EIT) : list (nat * ByteBlock) :=
  if negb (_is_valid t) then [] else
  let fixed := PutUInt16 (ts_id t) ++ PutUInt16 (onetw_id t)
               ++ [segment_last t; last_table_id t] in
  let st0 := mkState [] fixed (MAX_PSI_LONG_SECTION_PAYLOAD_SIZE - 6) O in
  let st := fold_left add_event (events t) st0 in
  if (6 <? length (data st))%nat || (match sections st with [] => true | _ => false end)
  then sections (addSection st)
  else sections st.

End Serialize.

(** The decoding of the last two bytes of an event header in
    [EIT::deserialize]: running_status, CA_controlled and the descriptor
    loop length. *)
Definition deserialize_event_flags (data : ByteBlock) : Z * bool * Z :=
  (Z.land (Z.shiftr (nth 10 data 0) 5) 7,
   negb (Z.land (Z.shiftr (nth 10 data 0) 4) 1 =? 0),
   Z.land (GetUInt16 (skipn 10 data)) 4095).

(** The bytes of an event description with all its descriptors. *)
Definition event_bytes (ev : Event) : ByteBlock :=
  event_entry ev (PutUInt16 (Z.lor (Z.of_nat (length (concat (descs ev)))) 61440))
              (concat (descs ev)).

End EIT.

(* ------------------------------------------------------------------------ *)
(** ** tsplugin_pcrverify.cpp *)

Module PCRVerify.

Definition PKT_SIZE : Z := 188.
Definition SYSTEM_CLOCK_FREQ : Z := 27000000.

(** Reading of a 64-bit pattern as a signed [int64_t]. *)
Definition wrap64 (z : Z) : Z := (z + 2 ^ 63) mod 2 ^ 64 - 2 ^ 63.

(** [jitter] of tsplugin_pcrverify.cpp. The arithmetic is done on 64-bit
    integers: the numerator is computed modulo 2^64 and the division is
    C++'s truncating division ([Z.quot]). [PKT_SIZE] and
    [SYSTEM_CLOCK_FREQ] are declared in a header outside the sources given
    here; whatever their signedness, the 64-bit pattern of the numerator is
    the same, and when that pattern is below 2^63 (and the bitrate is
    positive) the signed and the unsigned division give the same result, the
    one computed below. *)
Definition jitter (pcr1 pkt1 pcr2 pkt2 bitrate : Z) : Z :=
  if bitrate =? 0 then 0
  else wrap64 (Z.quot (wrap64 (bitrate * (pcr2 - pcr1)
                               - (pkt2 - pkt1) * PKT_SIZE * 8 * SYSTEM_CLOCK_FREQ))
                      bitrate).

(** [PIDContext]: the last PCR of the PID and the packet where it was seen. *)
Record PIDContext := mkPIDContext {
  last_pcr_value : Z;
  last_pcr_packet : Z
}.

Record State := mkState {
  _packet_count : Z;
  _stats : Z -> PIDContext
}.

(** Plugin options used by [processPacket]: the filtered PIDs and the
    --bitrate value (0 if absent); [tsp_bitrate] is [tsp->bitrate()]. *)
Record Config := mkConfig {
  _pid_list : Z -> bool;
  _bitrate : Z;
  tsp_bitrate : Z
}.

(** A TS packet: its PID and its PCR, if it has one. *)
Record TSPacket := mkTSPacket {
  pkt_pid : Z;
  pkt_pcr : option Z
}.

Definition initial_state : State :=
  mkState 0 (fun _ => mkPIDContext 0 0).

Definition update_stats (f : Z -> PIDContext) (pid : Z) (c : PIDContext) : Z -> PIDContext :=
  fun p => if p =? pid then c else f p.

(** [PCRVerifyPlugin::processPacket]; the second component is the jitter
    computed for this packet ([None] when no jitter is computed: PID not
    filtered, no PCR, or no previous PCR). *)
Definition processPacket (cfg : Config) (st : State) (pkt : TSPacket) : State * option Z :=
  let pid := pkt_pid pkt in
  match pkt_pcr pkt with
  | Some pcr =>
      if _pid_list cfg pid then
        let pc := _stats st pid in
        let jit :=
          if last_pcr_value pc =? 0 then None
          else
            let bitrate := if negb (_bitrate cfg =? 0) then _bitrate cfg else tsp_bitrate cfg in
            Some (jitter (last_pcr_value pc) (last_pcr_packet pc) pcr (_packet_count st) bitrate) in
        (mkState (_packet_count st + 1)
                 (update_stats (_stats st) pid (mkPIDContext pcr (_packet_count st))), jit)
      else (mkState (_packet_count st + 1) (_stats st), None)
  | None => (mkState (_packet_count st + 1) (_stats st), None)
  end.

Fixpoint run (cfg : Config) (st : State) (pkts : list TSPacket) : list (option Z) :=
  match pkts with
  | [] => []
  | p :: r => let '(st', j) := processPacket cfg st p in j :: run cfg st' r
  end.

End PCRVerify.

(* ------------------------------------------------------------------------ *)
(** ** tsplugin_clear.cpp *)

Module ClearFilter.

Inductive Status := TSP_OK | TSP_END | TSP_DROP | TSP_NULL.

Definition PKT_SIZE : nat := 188.

(** Plugin state. The packet counters ([PacketCounter], 64-bit) are
    naturals: they count packets from 0 and never wrap in the model. *)
Record ClearState := mkClearState {
  _abort : bool;
  _pass_packets : bool;
  _drop_after : nat;
  _current_pkt : nat;
  _last_clear_pkt : nat;
  _drop_status : Status
}.

(** [ClearPlugin::start] for the options --stuffing and
    --drop-after-packets (0 if absent). *)
Definition start (stuffing : bool) (drop_after_packets : nat) : ClearState :=
  mkClearState false false drop_after_packets 0 0 (if stuffing then TSP_NULL else TSP_DROP).

(** A packet as seen by [processPacket]: [clear_monitored] is
    [_clear_pids[pid] && pkt.isClear()]; [demux_abort] tells whether feeding
    the packet to the demux hit an error that sets [_abort]. *)
Record Packet := mkPacket {
  clear_monitored : bool;
  demux_abort : bool
}.

(** [ClearPlugin::processPacket], with [tsp->bitrate()] as [bitrate]. *)
Definition processPacket (bitrate : nat) (st : ClearState) (p : Packet) : ClearState * Status :=
  let abort := _abort st || demux_abort p in
  if abort then (mkClearState abort (_pass_packets st) (_drop_after st) (_current_pkt st)
                              (_last_clear_pkt st) (_drop_status st), TSP_END)
  else
  let '(pass, last_clear) :=
    if clear_monitored p then (true, _current_pkt st)
    else (_pass_packets st, _last_clear_pkt st) in
  let drop_after :=
    if Nat.eqb (_drop_after st) 0 then (bitrate / (PKT_SIZE * 8))%nat else _drop_after st in
  if Nat.eqb drop_after 0 then
    (mkClearState abort pass drop_after (_current_pkt st) last_clear (_drop_status st), TSP_END)
  else
  let pass := if pass && Nat.ltb drop_after (_current_pkt st - last_clear) then false else pass in
  (mkClearState abort pass drop_after (S (_current_pkt st)) last_clear (_drop_status st),
   if pass then TSP_OK else _drop_status st).

Fixpoint run (bitrate : nat) (st : ClearState) (ps : list Packet) : list Status :=
  match ps with
  | [] => []
  | p :: r => let '(st', s) := processPacket bitrate st p in s :: run bitrate st' r
  end.

(** State after the given packets. *)
Definition states (bitrate : nat) (st : ClearState) (ps : list Packet) : ClearState :=
  fold_left (fun st p => fst (processPacket bitrate st p)) ps st.

Definition clear_at (ps : list Packet) (i : nat) : bool :=
  match nth_error ps i with Some p => clear_monitored p | None => false end.

End ClearFilter.

(* ------------------------------------------------------------------------ *)
(** ** tsplugin_pcrextract.cpp *)

Module PCRExtract.

(** The command line options read by [PCRExtractPlugin::start]. *)
Record Options := mkOptions {
  opt_dts : bool;
  opt_pts : bool;
  opt_pcr : bool;
  opt_opcr : bool;
  opt_good_pts_only : bool
}.

Record Flags := mkFlags {
  _good_pts_only : bool;
  _get_pts : bool;
  _get_dts : bool;
  _get_pcr : bool;
  _get_opcr : bool
}.

(** [PCRExtractPlugin::start]: [_get_pts = present ("dts")],
    [_get_dts = present ("pts")]; all four when none is given. *)
Definition start (o : Options) : Flags :=
  let gpts := opt_dts o in
  let gdts := opt_pts o in
  let gpcr := opt_pcr o in
  let gopcr := opt_opcr o in
  if negb gpts && negb gdts && negb gpcr && negb gopcr
  then mkFlags (opt_good_pts_only o) true true true true
  else mkFlags (opt_good_pts_only o) gpts gdts gpcr gopcr.

(** A packet: which time stamps it carries; [good_pts] is the result of
    [SequencedPTS (pc.last_good_pts, pts)] for its PTS. *)
Record TSPacket := mkTSPacket {
  has_pcr : bool;
  has_opcr : bool;
  has_pts : bool;
  has_dts : bool;
  good_pts : bool
}.

Inductive LineKind := LinePCR | LineOPCR | LinePTS | LineDTS.

(** The kinds of the report lines written by [processPacket], in order. *)
Definition report_lines (f : Flags) (p : TSPacket) : list LineKind :=
  (if has_pcr p && _get_pcr f then [LinePCR] else [])
  ++ (if has_opcr p && _get_opcr f then [LineOPCR] else [])
  ++ (if has_pts p && _get_pts f && (good_pts p || negb (_good_pts_only f))
      then [LinePTS] else [])
  ++ (if has_dts p && _get_dts f then [LineDTS] else []).

(** Modelled from the spec: the documented selection (the --help text of
    the plugin says --pts reports PTS and --dts reports DTS). *)
Definition documented_flags (o : Options) : Flags :=
  if negb (opt_pts o) && negb (opt_dts o) && negb (opt_pcr o) && negb (opt_opcr o)
  then mkFlags (opt_good_pts_only o) true true true true
  else mkFlags (opt_good_pts_only o) (opt_pts o) (opt_dts o) (opt_pcr o) (opt_opcr o).

End PCRExtract.

(* ------------------------------------------------------------------------ *)
(** ** More of [ts::Descriptor] (tsDescriptor.cpp) *)

Module DescriptorOps.
Import Descriptor.

(** [Descriptor(DID tag, const ByteBlock& data)] and
    [Descriptor(DID tag, const void* data, size_t size)]: a block of
    [size + 2] bytes, [tag], [uint8_t(size)], then the data, when
    [size < 256]. *)
Definition from_tag_data (t : Z) (data : ByteBlock) : Descriptor :=
  mkDescriptor (if (length data <? 256)%nat
                then Some ([t; u8 (Z.of_nat (length data))] ++ data) else None).

(** Setting the length byte: [_data[1] = v]. *)
Definition set_byte1 (bb : ByteBlock) (v : Z) : ByteBlock :=
  match bb with
  | b0 :: _ :: r => b0 :: v :: r
  | _ => bb
  end.

(** [Descriptor::replacePayload]. *)
Definition replacePayload (d : Descriptor) (addr : ByteBlock) : Descriptor :=
  if (255 <? length addr)%nat then mkDescriptor None
  else match _data d with
       | None => d
       | Some bb =>
           let bb1 := firstn 2 bb ++ addr in      (* erase (2, ...), append *)
           mkDescriptor (Some (set_byte1 bb1 (u8 (Z.of_nat (length bb1) - 2))))
       end.

(** [Descriptor::resizePayload]: [resize (new_size + 2)], new bytes zero. *)
Definition resizePayload (d : Descriptor) (new_size : nat) : Descriptor :=
  if (255 <? new_size)%nat then mkDescriptor None
  else match _data d with
       | None => d
       | Some bb =>
           let bb1 := firstn (new_size + 2) bb ++ repeat 0 (new_size + 2 - length bb) in
           mkDescriptor (Some (set_byte1 bb1 (u8 (Z.of_nat (length bb1) - 2))))
       end.

End DescriptorOps.

(* ------------------------------------------------------------------------ *)
(** ** More of [ts::DescriptorList] (tsDescriptorList.cpp) *)

Module DescriptorListOps.
Import Descriptor DescriptorList.

(** Modelled from the spec: [Descriptor::content()] (tsDescriptor.h, not in
    the sources), the whole byte block of the descriptor. *)
Definition content (d : Descriptor) : ByteBlock :=
  match _data d with Some bb => bb | None => [] end.

Definition contents (l : list Element) : list ByteBlock :=
  map (fun e => content (desc e)) l.

(** [DescriptorList::binarySize]. *)
Definition binarySize (l : list Element) : nat := EIT.binarySize (contents l).

(** [DescriptorList::serialize(addr, size, start)]: the bytes written, the
    remaining size and the returned index. *)
Definition serialize (l : list Element) (size start : nat) : ByteBlock * nat * nat :=
  let '(b, s, n) := EIT.dl_serialize (contents (skipn start l)) size in
  (b, s, (start + n)%nat).



End DescriptorListOps.

(* ------------------------------------------------------------------------ *)
(** ** [ts::PrivateDataSpecifierDescriptor] (tsPrivateDataSpecifierDescriptor.cpp) *)

Module PDSDescriptor.
Import Descriptor.

Record PrivateDataSpecifierDescriptor := mkPDSDescriptor {
  _is_valid : bool;
  pds : Z                    (* uint32_t *)
}.

(** [PrivateDataSpecifierDescriptor::serialize]: [Descriptor d (data, 6)]
    on [tag, 4, PutUInt32 (pds)]. *)
Definition serialize (x : PrivateDataSpecifierDescriptor) : Descriptor :=
  from_raw ([DID_PRIV_DATA_SPECIF; 4] ++ PutUInt32 (pds x)) 6.

(** [PrivateDataSpecifierDescriptor::deserialize]: [pds] is kept when the
    descriptor is invalid. *)
Definition deserialize (x : PrivateDataSpecifierDescriptor) (d : Descriptor)
  : PrivateDataSpecifierDescriptor :=
  let valid := isValid d && (tag d =? DID_PRIV_DATA_SPECIF) && (payloadSize d =? 4) in
  if valid then mkPDSDescriptor true (GetUInt32 (payload d))
  else mkPDSDescriptor false (pds x).

End PDSDescriptor.

(* ------------------------------------------------------------------------ *)
(** ** [AC3Descriptor::merge] (tsAC3Descriptor.cpp) *)

Module AC3Merge.
Import AC3.

Definition merge_opt (mine other : option Z) : option Z :=
  if set mine then mine else other.

(** [AC3Descriptor::merge]. *)
Definition merge (a other : AC3Descriptor) : AC3Descriptor :=
  mkAC3 (_is_valid a)
        (merge_opt (component_type a) (component_type other))
        (merge_opt (bsid a) (bsid other))
        (merge_opt (mainid a) (mainid other))
        (merge_opt (asvc a) (asvc other))
        (match additional_info a with [] => additional_info other | _ => additional_info a end).

(** The number of optional bytes written by [serialize]. *)
Definition nb_set (a : AC3Descriptor) : nat :=
  length (append_opt (component_type a) ++ append_opt (bsid a)
          ++ append_opt (mainid a) ++ append_opt (asvc a)).

End AC3Merge.

(* ------------------------------------------------------------------------ *)
(** ** EIT table ids (tsEIT.cpp) *)

Module EITTableId.

Section TableIds.

(** The table id constants (tsMPEG.h) and [isPresentFollowing()]
    (tsEIT.h), declared outside the sources. *)
Variables TID_EIT_PF_ACT TID_EIT_PF_OTH TID_EIT_S_ACT_MIN TID_EIT_S_ACT_MAX
          TID_EIT_S_OTH_MIN : Z.
Variable isPresentFollowing : Z -> bool.

(** The two table ids held by an EIT object. *)
Record TableIds := mkTableIds { _table_id : Z; last_table_id : Z }.

(** [EIT::ComputeTableId]. *)
Definition ComputeTableId (is_actual is_pf : bool) (eits_index : Z) : Z :=
  if is_pf then (if is_actual then TID_EIT_PF_ACT else TID_EIT_PF_OTH)
  else (if is_actual then TID_EIT_S_ACT_MIN else TID_EIT_S_OTH_MIN) + Z.land eits_index 15.

(** [EIT::isActual]. *)
Definition isActual (t : TableIds) : bool :=
  (_table_id t =? TID_EIT_PF_ACT)
  || ((TID_EIT_S_ACT_MIN <=? _table_id t) && (_table_id t <=? TID_EIT_S_ACT_MAX)).

(** [EIT::setActual]. *)
Definition setActual (t : TableIds) (is_actual : bool) : TableIds :=
  if isPresentFollowing (_table_id t) then
    let tid := if is_actual then TID_EIT_PF_ACT else TID_EIT_PF_OTH in
    mkTableIds tid tid
  else if is_actual then
    mkTableIds (TID_EIT_S_ACT_MIN + Z.land (_table_id t) 15)
               (TID_EIT_S_ACT_MIN + Z.land (last_table_id t) 15)
  else
    mkTableIds (TID_EIT_S_OTH_MIN + Z.land (_table_id t) 15)
               (TID_EIT_S_ACT_MIN + Z.land (last_table_id t) 15).

End TableIds.

End EITTableId.
(* ======================================================================== *)
(** * Properties *)

(* ------------------------------------------------------------------------ *)
(** ** Descriptor and AC-3 descriptor codec *)

Module AC3Facts.
Import Descriptor AC3.

Definition rebuild (f : Z) : Z :=
  Z.lor (Z.lor (Z.lor (if negb (Z.land f 128 =? 0) then 128 else 0)
                      (if negb (Z.land f 64 =? 0) then 64 else 0))
               (if negb (Z.land f 32 =? 0) then 32 else 0))
        (if negb (Z.land f 16 =? 0) then 16 else 0).

Lemma rebuild_all :
  forallb (fun f => implb (Z.land f 15 =? 0) (rebuild f =? f))
          (map Z.of_nat (seq 0 256)) = true.
Proof. vm_compute. reflexivity. Qed.

Lemma rebuild_flags f : 0 <= f < 256 -> Z.land f 15 = 0 -> rebuild f = f.
Proof.
  intros Hr Hl.
  pose proof rebuild_all as H. rewrite forallb_forall in H.
  specialize (H f). rewrite in_map_iff in H.
  assert (Hin : exists x, Z.of_nat x = f /\ In x (seq 0 256)).
  { exists (Z.to_nat f). split; [lia|]. apply in_seq. lia. }
  specialize (H Hin). rewrite Hl in H. simpl in H. now apply Z.eqb_eq.
Qed.

Lemma u8_byte z : is_byte z -> u8 z = z.
Proof. unfold is_byte, u8; intros; apply Z.mod_small; lia. Qed.

Definition bit (flags mask : Z) : nat :=
  if negb (Z.land flags mask =? 0) then 1 else 0.

Lemma read_opt_back flags mask data :
  Forall is_byte data ->
  (bit flags mask <= length data)%nat ->
  append_opt (fst (read_opt flags mask data)) ++ snd (read_opt flags mask data) = data /\
  set (fst (read_opt flags mask data)) = negb (Z.land flags mask =? 0) /\
  length (snd (read_opt flags mask data)) = (length data - bit flags mask)%nat /\
  Forall is_byte (snd (read_opt flags mask data)).
Proof.
  unfold read_opt, bit. intros Hb Hl.
  destruct (negb (Z.land flags mask =? 0)); simpl.
  - destruct data as [|x r]; simpl in *; [lia|].
    inversion Hb; subst. rewrite u8_byte by assumption.
    repeat split; auto. lia.
  - repeat split; auto. lia.
Qed.

Lemma announced_bits f :
  announced f = (bit f 128 + bit f 64 + bit f 32 + bit f 16)%nat.
Proof.
  unfold announced, bit; simpl.
  destruct (negb (Z.land f 128 =? 0)), (negb (Z.land f 64 =? 0)),
           (negb (Z.land f 32 =? 0)), (negb (Z.land f 16 =? 0)); reflexivity.
Qed.

Lemma bit_le f m : (bit f m <= 1)%nat.
Proof. unfold bit; destruct (negb _); lia. Qed.

End AC3Facts.

Module AC3Roundtrip.
Import Descriptor AC3 AC3Facts.

Lemma size_check_wf len flags rest :
  len = Z.of_nat (length (flags :: rest)) -> len <= 255 ->
  size_check (DID_AC3 :: len :: flags :: rest)
             (Z.of_nat (length (DID_AC3 :: len :: flags :: rest))) = true.
Proof.
  intros Hlen Hle. unfold size_check. simpl length in *. simpl nth.
  apply andb_true_intro; split; [apply andb_true_intro; split|];
    [apply Z.leb_le | apply Z.ltb_lt | apply Z.eqb_eq]; lia.
Qed.

(** Claim C1: for every well-formed binary AC3_descriptor [b],
    serialising the result of deserialising [b] gives back [b]. *)
Theorem ac3_serialize_deserialize (b : ByteBlock) :
  well_formed b ->
  _data (serialize (deserialize (from_bytes b))) = Some b.
Proof.
  intros [Hb [len [flags [rest [-> [Hlen [Hle [Hlow Hann]]]]]]]].
  apply Forall_cons_iff in Hb as [_ Hb]. apply Forall_cons_iff in Hb as [_ Hb].
  apply Forall_cons_iff in Hb as [Hf Hr].
  unfold from_bytes. rewrite size_check_wf by assumption.
  unfold deserialize, isValid, tag, payloadSize, payload. simpl _data.
  simpl nth. simpl skipn.
  replace (1 <=? Z.pos (Pos.of_succ_nat (length rest))) with true
    by (symmetry; apply Z.leb_le; lia).
  cbv iota beta.
  rewrite announced_bits in Hann.
  pose proof (bit_le flags 128). pose proof (bit_le flags 64).
  pose proof (bit_le flags 32). pose proof (bit_le flags 16).
  destruct (read_opt flags 128 rest) as [ct d1] eqn:E1.
  destruct (read_opt_back flags 128 rest Hr ltac:(lia)) as [A1 [S1 [L1 F1]]].
  rewrite E1 in A1, S1, L1, F1; simpl in A1, S1, L1, F1.
  destruct (read_opt flags 64 d1) as [bs d2] eqn:E2.
  destruct (read_opt_back flags 64 d1 F1 ltac:(lia)) as [A2 [S2 [L2 F2]]].
  rewrite E2 in A2, S2, L2, F2; simpl in A2, S2, L2, F2.
  destruct (read_opt flags 32 d2) as [mi d3] eqn:E3.
  destruct (read_opt_back flags 32 d2 F2 ltac:(lia)) as [A3 [S3 [L3 F3]]].
  rewrite E3 in A3, S3, L3, F3; simpl in A3, S3, L3, F3.
  destruct (read_opt flags 16 d3) as [av d4] eqn:E4.
  destruct (read_opt_back flags 16 d3 F3 ltac:(lia)) as [A4 [S4 [L4 F4]]].
  rewrite E4 in A4, S4, L4, F4; simpl in A4, S4, L4, F4.
  unfold serialize; simpl component_type; simpl bsid; simpl mainid;
    simpl asvc; simpl additional_info.
  rewrite S1, S2, S3, S4.
  fold (rebuild flags). rewrite rebuild_flags by (auto; unfold is_byte in Hf; lia).
  rewrite (u8_byte flags Hf).
  assert (Hrest : append_opt ct ++ append_opt bs ++ append_opt mi ++ append_opt av ++ d4
                  = rest) by (rewrite A4, A3, A2, A1; reflexivity).
  simpl app. simpl skipn. rewrite Hrest.
  replace (u8 (Z.of_nat (length (0 :: 0 :: flags :: rest)) - 2)) with len.
  2:{ rewrite u8_byte; simpl length in *; [lia|]. unfold is_byte; lia. }
  unfold from_ptr. rewrite size_check_wf by assumption. reflexivity.
Qed.

End AC3Roundtrip.

(* ------------------------------------------------------------------------ *)
(** ** Descriptor constructors *)

Module DescriptorFacts.
Import Descriptor.

Lemma size_check_spec addr s :
  size_check addr s = true <-> 2 <= s <= 257 /\ nth 1 addr 0 = s - 2.
Proof.
  unfold size_check. rewrite !andb_true_iff, Z.leb_le, Z.ltb_lt, Z.eqb_eq. lia.
Qed.

(** Claim C10: a descriptor built from a raw buffer of [s] bytes is valid
    exactly when [2 <= s <= 257] and the second byte is [s - 2]; otherwise it
    holds no data and is not valid. The same holds for the constructor from
    a byte block pointer, in both copy modes. *)
Theorem descriptor_ctor_validity (bb : ByteBlock) :
  let s := Z.of_nat (length bb) in
  (isValid (from_raw bb (length bb)) = true <->
     2 <= s <= 257 /\ nth 1 bb 0 = s - 2) /\
  (~ (2 <= s <= 257 /\ nth 1 bb 0 = s - 2) ->
     _data (from_raw bb (length bb)) = None /\
     isValid (from_raw bb (length bb)) = false) /\
  (forall mode,
     (isValid (from_ptr (Some bb) mode) = true <->
        2 <= s <= 257 /\ nth 1 bb 0 = s - 2) /\
     (~ (2 <= s <= 257 /\ nth 1 bb 0 = s - 2) ->
        _data (from_ptr (Some bb) mode) = None /\
        isValid (from_ptr (Some bb) mode) = false)).
Proof.
  intros s. pose proof (size_check_spec bb s) as Hs.
  unfold from_raw, from_ptr, isValid. subst s.
  destruct (size_check bb (Z.of_nat (length bb))); simpl.
  - assert (Hc : 2 <= Z.of_nat (length bb) <= 257 /\
                 nth 1 bb 0 = Z.of_nat (length bb) - 2) by tauto.
    split; [tauto|]. split; [tauto|].
    intros mode; destruct mode; simpl; tauto.
  - assert (Hc : ~ (2 <= Z.of_nat (length bb) <= 257 /\
                    nth 1 bb 0 = Z.of_nat (length bb) - 2))
      by (intros Hc; apply Hs in Hc; discriminate).
    split; [split; [discriminate | tauto]|]. split; [auto|].
    intros mode; split; [split; [discriminate | tauto] | auto].
Qed.

End DescriptorFacts.

(* ------------------------------------------------------------------------ *)
(** ** XML form of the AC-3 descriptor *)

Module AC3XMLFacts.
Import Descriptor AC3 XMLModel.

(** [<AC3_descriptor component_type="0x42" bsid="8"/>] *)
Definition s2_element : Element :=
  mkElement "AC3_descriptor" [("component_type", "0x42"); ("bsid", "8")]%string [].

(** Claim C5: the element [<AC3_descriptor component_type="0x42" bsid="8"/>]
    deserialises to a valid AC3Descriptor which serialises to the bytes
    [6A 03 C0 42 08]. *)
Theorem ac3_xml_s2_encoding :
  _is_valid (AC3_fromXML AC3_default s2_element) = true /\
  _data (serialize (AC3_fromXML AC3_default s2_element))
    = Some [106; 3; 192; 66; 8].
Proof. split; vm_compute; reflexivity. Qed.

End AC3XMLFacts.

(* ------------------------------------------------------------------------ *)
(** ** Descriptor lists: the PDS associated with each element *)

Module DescriptorListFacts.
Import Descriptor DescriptorList.

Definition pds_step (cur : Z) (d : Descriptor) : Z :=
  if tag d =? DID_PRIV_DATA_SPECIF then pds_value d else cur.

(** [inv_from cur l]: each element of [l] carries the PDS in force at its
    position, [cur] being the PDS in force before [l]. *)
Fixpoint inv_from (cur : Z) (l : list Element) : Prop :=
  match l with
  | [] => True
  | e :: r => pds e = pds_step cur (desc e) /\ inv_from (pds e) r
  end.

(** The PDS in force before position [i]. *)
Fixpoint running (cur : Z) (l : list Element) (i : nat) {struct i} : Z :=
  match i, l with
  | O, _ => cur
  | S _, [] => cur
  | S j, e :: r => running (pds e) r j
  end.

Definition last_pds (cur : Z) (l : list Element) : Z :=
  match l with [] => cur | _ => pds (last l dummy) end.

Lemma inv_snoc cur l x :
  inv_from cur l -> pds x = pds_step (last_pds cur l) (desc x) ->
  inv_from cur (l ++ [x]).
Proof.
  revert cur. induction l as [|e r IH]; intros cur Hl Hx; simpl in *.
  - split; auto.
  - destruct Hl as [He Hr]. split; auto. apply IH; auto.
    destruct r; simpl in *; auto.
Qed.

Lemma add_inv l d : inv_from 0 l -> inv_from 0 (add l d).
Proof.
  intros H. unfold add. apply inv_snoc; auto.
Qed.

Lemma erase_inv i : forall cur l e,
  inv_from cur l -> nth_error l i = Some e ->
  (tag (desc e) =? DID_PRIV_DATA_SPECIF) = false ->
  inv_from cur (erase i l).
Proof.
  induction i as [|j IH]; intros cur l e Hl Hn Ht;
    destruct l as [|e' r]; simpl in *; try discriminate.
  - injection Hn as <-. destruct Hl as [He Hr].
    unfold pds_step in He. rewrite Ht in He. now rewrite He in Hr.
  - destruct Hl as [He Hr]. split; auto. eapply IH; eauto.
Qed.

Lemma set_pds_inv r : forall k c0 c,
  inv_from c0 r -> search_end r = Some k -> inv_from c (set_pds k c r).
Proof.
  induction r as [|e1 r1 IH]; intros k c0 c Hr Hs; simpl in *.
  - destruct k; simpl; auto.
  - destruct Hr as [He Hr1].
    destruct (128 <=? tag (desc e1)); [discriminate|].
    destruct (tag (desc e1) =? DID_PRIV_DATA_SPECIF) eqn:Ep.
    + injection Hs as <-. simpl. unfold pds_step in *. rewrite Ep in *. auto.
    + destruct (search_end r1) as [k'|] eqn:E1; simpl in Hs; [|discriminate].
      injection Hs as <-. simpl. unfold pds_step. rewrite Ep. split; auto.
      eapply IH; eauto.
Qed.

Lemma prepare_erase_inv i : forall cur l e k prev,
  inv_from cur l -> nth_error l i = Some e ->
  (tag (desc e) =? DID_PRIV_DATA_SPECIF) = true ->
  search_end (skipn (S i) l) = Some k ->
  prev = running cur l i ->
  inv_from cur (erase i (firstn (S i) l ++ set_pds k prev (skipn (S i) l))).
Proof.
  induction i as [|j IH]; intros cur l e k prev Hl Hn Ht Hs Hp;
    destruct l as [|e' r]; simpl in *; try discriminate.
  - subst prev. destruct Hl as [_ Hr]. eapply set_pds_inv; eauto.
  - destruct Hl as [He Hr]. split; auto. eapply IH; eauto.
Qed.

Lemma running_succ l : forall j cur,
  (j < length l)%nat -> running cur l (S j) = pds (nth j l dummy).
Proof.
  induction l as [|e r IH]; intros j cur Hj; simpl in *; [lia|].
  destruct j; simpl; auto. apply IH. lia.
Qed.

Lemma prepare_inv l i l' :
  inv_from 0 l -> prepareRemovePDS l i = Some l' -> inv_from 0 (erase i l').
Proof.
  unfold prepareRemovePDS. intros Hl.
  destruct (nth_error l i) as [e|] eqn:Hn; [|intros ?; discriminate].
  destruct (tag (desc e) =? DID_PRIV_DATA_SPECIF) eqn:Ht; cbn [negb];
    [|intros ?; discriminate].
  destruct (search_end (skipn (S i) l)) as [k|] eqn:Hs; [|intros ?; discriminate].
  intros Hp. injection Hp as <-. eapply prepare_erase_inv; eauto.
  destruct i as [|j]; [reflexivity|].
  symmetry. apply running_succ.
  assert (S j < length l)%nat by (apply nth_error_Some; congruence). lia.
Qed.

Lemma removeByIndex_inv l i : inv_from 0 l -> inv_from 0 (fst (removeByIndex l i)).
Proof.
  intros Hl. unfold removeByIndex.
  destruct (nth_error l i) as [e|] eqn:Hn; simpl; auto.
  destruct (tag (desc e) =? DID_PRIV_DATA_SPECIF) eqn:Ht.
  - destruct (prepareRemovePDS l i) as [l'|] eqn:Hp; simpl; auto.
    eapply prepare_inv; eauto.
  - simpl. eapply erase_inv; eauto.
Qed.

Lemma removeByTag_loop_inv fuel : forall t p c it l count,
  inv_from 0 l -> inv_from 0 (fst (removeByTag_loop fuel t p c it l count)).
Proof.
  induction fuel as [|f IH]; intros t p c it l count Hl; simpl; auto.
  destruct (nth_error l it) as [e|] eqn:Hn; simpl; auto.
  destruct ((tag (desc e) =? t) && (negb c || (pds e =? p))); auto.
  destruct (tag (desc e) =? DID_PRIV_DATA_SPECIF) eqn:Ht.
  - destruct (prepareRemovePDS l it) as [l'|] eqn:Hp; auto.
    apply IH. eapply prepare_inv; eauto.
  - apply IH. eapply erase_inv; eauto.
Qed.

Lemma removeInvalid_loop_inv fuel : forall n l count,
  inv_from 0 l -> inv_from 0 (fst (removeInvalid_loop fuel n l count)).
Proof.
  induction fuel as [|f IH]; intros n l count Hl; simpl; auto.
  destruct (nth_error l n) as [e|] eqn:Hn; simpl; auto.
  destruct ((pds e =? 0) && isValid (desc e) && (128 <=? tag (desc e))) eqn:Hc; auto.
  apply IH. eapply erase_inv; eauto.
  apply andb_true_iff in Hc as [_ Hc]. apply Z.leb_le in Hc.
  apply Z.eqb_neq. unfold DID_PRIV_DATA_SPECIF. lia.
Qed.

Lemma add_memory_inv fuel : forall l data,
  inv_from 0 l -> inv_from 0 (add_memory fuel l data).
Proof.
  induction fuel as [|f IH]; intros l data Hl; cbn [add_memory]; auto.
  destruct (Nat.leb 2 (length data)); auto.
  destruct (Nat.leb (Z.to_nat (nth 1 data 0 + 2)) (length data)); auto.
  apply IH. now apply add_inv.
Qed.

Lemma apply_op_inv l op : inv_from 0 l -> inv_from 0 (apply_op l op).
Proof.
  intros Hl. destruct op; simpl.
  - now apply add_inv.
  - unfold add_serialized. destruct (isValid d); auto. now apply add_inv.
  - now apply add_memory_inv.
  - unfold addPrivateDataSpecifier, add_serialized.
    destruct (_ && _); auto. destruct (isValid _); auto. now apply add_inv.
  - now apply removeByIndex_inv.
  - now apply removeByTag_loop_inv.
  - now apply removeInvalid_loop_inv.
Qed.

Lemma run_inv ops : forall l, inv_from 0 l -> inv_from 0 (fold_left apply_op ops l).
Proof.
  induction ops as [|op ops IH]; intros l Hl; simpl; auto.
  apply IH. now apply apply_op_inv.
Qed.

Lemma inv_active l : forall cur k e,
  inv_from cur l -> nth_error l k = Some e ->
  pds e = fold_left pds_step (map desc (firstn (S k) l)) cur.
Proof.
  induction l as [|e' r IH]; intros cur k e Hl Hn; destruct k as [|k];
    simpl in *; try discriminate.
  - injection Hn as <-. destruct Hl; auto.
  - destruct Hl as [He Hr]. rewrite <- He. eapply IH; eauto.
Qed.

(** Claim C3: in every descriptor list built by a sequence of insertions
    and removals, the PDS associated with each descriptor is the value
    declared by the closest private_data_specifier_descriptor at or before
    its position (the descriptor itself when it is one), or 0. *)
Theorem pds_associated_is_active (ops : list Op) :
  forall k e, nth_error (run ops) k = Some e ->
  pds e = active_pds (map desc (firstn (S k) (run ops))).
Proof.
  intros k e Hn. unfold active_pds.
  apply (inv_active (run ops) 0 k e); auto.
  unfold run. apply run_inv. exact I.
Qed.

End DescriptorListFacts.

Module DescriptorListExamples.
Import Descriptor DescriptorList DescriptorListFacts.

(** A descriptor with tag [t] and an empty payload. *)
Definition priv (t : Z) : Descriptor := from_raw [t; 0] 2.

Definition ops_example : list Op :=
  [OpAdd (priv 128); OpAddPrivateDataSpecifier 40; OpAdd (priv 129);
   OpAddPrivateDataSpecifier 41; OpAdd (priv 72); OpRemoveByIndex 3].

Example ops_example_pds :
  map pds (run ops_example) = [0; 40; 40; 40].
Proof. vm_compute. reflexivity. Qed.

Lemma pds_associated_is_active_witness :
  nth_error (run ops_example) 3 = Some (mkElement (priv 72) 40) /\
  pds (mkElement (priv 72) 40)
    = active_pds (map desc (firstn 4 (run ops_example))).
Proof.
  split; [vm_compute; reflexivity|].
  apply (pds_associated_is_active ops_example 3). vm_compute. reflexivity.
Defined.

(** Claim C7 (the code misses its goal): after two private descriptors
    without a preceding private_data_specifier_descriptor,
    [removeInvalidPrivateDescriptors] removes the first one only; the
    second one, valid, with tag 0x81 and PDS 0, stays in the list. *)
Theorem removeInvalidPrivateDescriptors_skips_next :
  removeInvalidPrivateDescriptors (run [OpAdd (priv 128); OpAdd (priv 129)])
    = ([mkElement (priv 129) 0], 1%nat) /\
  isValid (priv 129) = true /\ 128 <= tag (priv 129).
Proof. vm_compute. repeat split; discriminate. Qed.

End DescriptorListExamples.

Module CodecWitnesses.
Import Descriptor AC3 AC3Roundtrip DescriptorFacts.

Definition ac3_example : ByteBlock := [106; 3; 192; 66; 8].

Lemma ac3_serialize_deserialize_witness :
  well_formed ac3_example /\
  _data (serialize (deserialize (from_bytes ac3_example))) = Some ac3_example.
Proof.
  assert (Hw : well_formed ac3_example).
  { split.
    - repeat constructor; unfold is_byte; lia.
    - exists 3, 192, [66; 8]. repeat split; try reflexivity; try lia. }
  split; [exact Hw|]. apply (ac3_serialize_deserialize ac3_example Hw).
Defined.

Lemma descriptor_ctor_validity_witness :
  ~ (2 <= Z.of_nat (length [72; 5]) <= 257 /\ nth 1 [72; 5] 0 = Z.of_nat (length [72; 5]) - 2) /\
  _data (from_raw [72; 5] (length [72; 5])) = None.
Proof.
  assert (Hn : ~ (2 <= Z.of_nat (length [72; 5]) <= 257 /\
                  nth 1 [72; 5] 0 = Z.of_nat (length [72; 5]) - 2))
    by (simpl; lia).
  split; [exact Hn|].
  apply (proj1 (proj1 (proj2 (descriptor_ctor_validity [72; 5])) Hn)).
Defined.

End CodecWitnesses.

(* ------------------------------------------------------------------------ *)
(** ** EIT serialisation: events are not split across sections *)

Module EITFacts.
Import EIT.

Section WithMax.
Variable MAX : nat.
Variable fixed : ByteBlock.

Definition section_of (evs : list Event) : ByteBlock :=
  fixed ++ concat (map event_bytes evs).

(** The payloads of the sections already added are the fixed part followed
    by whole event descriptions ([P]); the payload being built is the fixed
    part followed by the whole event descriptions [cur]. *)
Definition inv (st : State) (P : list (list Event)) (cur : list Event) : Prop :=
  map snd (sections st) = map section_of P /\
  data st = section_of cur /\
  (remain st + length (data st) = MAX)%nat /\
  length fixed = 6%nat.

Lemma addSection_inv st P cur :
  inv st P cur -> inv (addSection st) (P ++ [cur]) [].
Proof.
  intros [Hs [Hd [Hr Hf]]]. unfold addSection, inv; cbn [sections data remain].
  rewrite !map_app, Hs, Hd. split; [reflexivity|]. split; [|split; auto].
  - unfold section_of. cbn [map concat].
    rewrite firstn_app, Hf, firstn_all2 by lia. rewrite Nat.sub_diag. simpl.
    rewrite !app_nil_r. reflexivity.
  - rewrite length_firstn. rewrite Hd in *. unfold section_of in *.
    rewrite length_app in *. lia.
Qed.

Lemma concat_length_binarySize ds : length (concat ds) = binarySize ds.
Proof. induction ds as [|d r IH]; simpl; auto. rewrite length_app. lia. Qed.

Lemma dl_serialize_all ds : forall size,
  (binarySize ds <= size)%nat ->
  dl_serialize ds size = (concat ds, (size - binarySize ds)%nat, length ds).
Proof.
  induction ds as [|d r IH]; intros size Hs; simpl in *.
  - f_equal. f_equal. lia.
  - destruct (Nat.leb_spec (length d) size); [|lia].
    rewrite IH by lia. f_equal. f_equal. lia.
Qed.

Lemma event_entry_length ev f b :
  length (event_entry ev f b) = (12 + length b)%nat.
Proof. reflexivity. Qed.

Lemma add_event_inv st P cur ev :
  (12 + binarySize (descs ev) <= MAX - 6)%nat ->
  inv st P cur ->
  exists P' cur', inv (add_event st ev) P' cur' /\
                  concat P' ++ cur' = concat P ++ cur ++ [ev].
Proof.
  intros Hfit Hinv. unfold add_event.
  set (bs := binarySize (descs ev)) in *.
  (* the first test: [if (remain < 12) addSection] *)
  assert (H1 : exists P1 cur1,
             inv (if (remain st <? 12)%nat then addSection st else st) P1 cur1 /\
             concat P1 ++ cur1 = concat P ++ cur).
  { destruct (Nat.ltb_spec (remain st) 12).
    - exists (P ++ [cur]), []. split; [now apply addSection_inv|].
      rewrite concat_app. simpl. now rewrite !app_nil_r.
    - exists P, cur. auto. }
  destruct H1 as [P1 [cur1 [Hinv1 Hc1]]].
  set (st' := if (remain st <? 12)%nat then addSection st else st) in *.
  cbn [event_loop orb andb].
  (* the second test: the whole event description must fit *)
  assert (H2 : exists P2 cur2,
             inv (if (remain st' <? 12 + bs)%nat then addSection st' else st') P2 cur2 /\
             concat P2 ++ cur2 = concat P1 ++ cur1 /\
             (12 + bs <= remain (if (remain st' <? 12 + bs)%nat then addSection st' else st'))%nat).
  { destruct (Nat.ltb_spec (remain st') (12 + bs)).
    - exists (P1 ++ [cur1]), []. split; [now apply addSection_inv|].
      split.
      + rewrite concat_app. simpl. now rewrite !app_nil_r.
      + destruct Hinv1 as [_ [Hd [Hr Hf]]]. unfold addSection. simpl.
        rewrite Hd in *. unfold section_of in *. rewrite length_app in *. lia.
    - exists P1, cur1. auto. }
  destruct H2 as [P2 [cur2 [Hinv2 [Hc2 Hroom]]]].
  set (st1 := if (remain st' <? 12 + bs)%nat then addSection st' else st') in *.
  assert (Hstep : event_step ev true 0 st' =
                  (mkState (sections st1) (data st1 ++ event_bytes ev)
                           (remain st1 - 12 - bs) (section_number st1),
                   length (descs ev))).
  { unfold event_step. cbn [andb]. fold bs. fold st1.
    unfold lengthSerialize. simpl skipn.
    rewrite dl_serialize_all by (fold bs; lia).
    rewrite Nat.add_0_l, Nat.ltb_irrefl. unfold event_bytes.
    rewrite concat_length_binarySize. fold bs. do 3 f_equal. lia. }
  cbn [event_loop orb]. rewrite Hstep. cbn beta iota.
  rewrite Nat.ltb_irrefl. cbn [orb].
  exists P2, (cur2 ++ [ev]).
  destruct Hinv2 as [Hs [Hd [Hr Hf]]].
  split.
  - unfold inv; simpl. repeat split; auto.
    + rewrite Hd. unfold section_of. rewrite map_app, concat_app.
      simpl. rewrite app_nil_r, app_assoc. reflexivity.
    + rewrite length_app. unfold event_bytes.
      rewrite event_entry_length, concat_length_binarySize. fold bs. lia.
  - rewrite app_assoc, Hc2, Hc1. now rewrite app_assoc.
Qed.

Lemma fold_add_event evs : forall st P cur,
  (forall ev, In ev evs -> (12 + binarySize (descs ev) <= MAX - 6)%nat) ->
  inv st P cur ->
  exists P' cur', inv (fold_left add_event evs st) P' cur' /\
                  concat P' ++ cur' = concat P ++ cur ++ evs.
Proof.
  induction evs as [|ev evs IH]; intros st P cur Hfit Hinv; simpl.
  - exists P, cur. now rewrite app_nil_r.
  - destruct (add_event_inv st P cur ev (Hfit ev (or_introl eq_refl)) Hinv)
      as [P1 [cur1 [Hinv1 Hc1]]].
    destruct (IH (add_event st ev) P1 cur1) as [P2 [cur2 [Hinv2 Hc2]]];
      [intros; apply Hfit; now right | exact Hinv1 |].
    exists P2, cur2. split; auto. rewrite Hc2, app_assoc, Hc1.
    now rewrite <- !app_assoc.
Qed.

End WithMax.

Lemma event_bytes_nonempty ev : (12 <= length (event_bytes ev))%nat.
Proof. unfold event_bytes. rewrite event_entry_length. lia. Qed.

Lemma concat_event_bytes_nil evs :
  concat (map event_bytes evs) = [] -> evs = [].
Proof.
  destruct evs as [|ev r]; simpl; auto. intros H.
  pose proof (event_bytes_nonempty ev) as Hl.
  destruct (event_bytes ev); simpl in *; [lia | discriminate].
Qed.

(** Claim C2: when every event description (12-byte header and descriptor
    loop) fits in the payload of one section after its 6 fixed bytes, each
    section produced by [EIT::serialize] is the fixed part followed by whole
    event descriptions, and for a valid EIT these are the events of the
    table, each one once and in order. *)
Theorem eit_events_not_split (MAX : nat) (t : EIT) :
  (forall ev, In ev (events t) -> (12 + binarySize (descs ev) <= MAX - 6)%nat) ->
  let fixed := PutUInt16 (ts_id t) ++ PutUInt16 (onetw_id t)
               ++ [segment_last t; last_table_id t] in
  exists P : list (list Event),
    map snd (serialize MAX t) = map (section_of fixed) P /\
    (_is_valid t = true -> concat P = events t).
Proof.
  intros Hfit fixed. unfold serialize.
  destruct (_is_valid t) eqn:Hv; simpl negb; cbv iota.
  2:{ exists []. split; [reflexivity | discriminate]. }
  fold fixed.
  destruct (events t) as [|ev0 evs0] eqn:He.
  - simpl. exists [[]]. split; [|reflexivity].
    unfold addSection; simpl. unfold section_of. simpl.
    reflexivity.
  - assert (HM : (6 <= MAX)%nat).
    { specialize (Hfit ev0 (or_introl eq_refl)). lia. }
    rewrite <- He in *.
    assert (H0 : inv MAX fixed (mkState [] fixed (MAX - 6) O) [] []).
    { unfold inv; simpl. unfold section_of; simpl.
      repeat split; try rewrite app_nil_r; auto; unfold fixed; simpl; lia. }
    destruct (fold_add_event MAX fixed (events t) _ [] [] Hfit H0)
      as [P [cur [Hinv Hc]]].
    simpl in Hc.
    set (st := fold_left add_event (events t) (mkState [] fixed (MAX - 6) 0)) in *.
    destruct ((6 <? length (data st))%nat
              || match sections st with [] => true | _ => false end) eqn:Hlast.
    + pose proof (addSection_inv MAX fixed st P cur Hinv) as [Hs _].
      exists (P ++ [cur]). split; auto.
      intros _. now rewrite concat_app, <- Hc; simpl; rewrite app_nil_r.
    + destruct Hinv as [Hs [Hd [_ Hf]]].
      apply orb_false_iff in Hlast as [Hl _]. apply Nat.ltb_ge in Hl.
      rewrite Hd in Hl. unfold section_of in Hl. rewrite length_app, Hf in Hl.
      assert (Hnil : concat (map event_bytes cur) = []).
      { destruct (concat (map event_bytes cur)); simpl in *; auto; lia. }
      apply concat_event_bytes_nil in Hnil. subst cur.
      exists P. split; auto. intros _. now rewrite <- Hc, app_nil_r.
Qed.

End EITFacts.

(* ------------------------------------------------------------------------ *)
(** ** EIT: running_status and CA_controlled in the descriptor loop length *)

Module EITFlagsFacts.
Import EIT.

Definition range (n : nat) : list Z := map Z.of_nat (seq 0 n).

Lemma in_range z n : 0 <= z < Z.of_nat n -> In z (range n).
Proof.
  intros H. unfold range. apply in_map_iff. exists (Z.to_nat z).
  split; [lia|]. apply in_seq. lia.
Qed.

Definition length_field_ok (len : Z) : bool :=
  (u8 (Z.shiftr (Z.lor len 61440) 8) =? 240 + len / 256) &&
  (u8 (Z.lor len 61440) =? len mod 256).

Lemma length_field_all : forallb length_field_ok (range 4096) = true.
Proof. vm_compute. reflexivity. Qed.

Definition flags_byte (n rs : Z) (ca : bool) : Z :=
  u8 (Z.lor (Z.lor (Z.land (240 + n) 15) (Z.shiftl rs 5)) (if ca then 16 else 0)).

Definition flags_ok (n rs : Z) (ca : bool) : bool :=
  let b := flags_byte n rs ca in
  (Z.shiftr b 5 =? Z.land rs 7) &&
  (Z.land (Z.shiftr b 5) 7 =? Z.land rs 7) &&
  (Z.land (Z.shiftr b 4) 1 =? (if ca then 1 else 0)) &&
  (b mod 16 =? n) && (0 <=? b) && (b <? 256).

Lemma flags_all :
  forallb (fun n => forallb (fun rs => flags_ok n rs true && flags_ok n rs false)
                            (range 256)) (range 16) = true.
Proof. vm_compute. reflexivity. Qed.

Lemma length_field_spec len : 0 <= len < 4096 ->
  u8 (Z.shiftr (Z.lor len 61440) 8) = 240 + len / 256 /\
  u8 (Z.lor len 61440) = len mod 256.
Proof.
  intros H. pose proof length_field_all as A. rewrite forallb_forall in A.
  specialize (A len (in_range len 4096 ltac:(lia))).
  unfold length_field_ok in A. apply andb_true_iff in A as [A1 A2].
  apply Z.eqb_eq in A1, A2. auto.
Qed.

Lemma flags_spec n rs ca : 0 <= n < 16 -> 0 <= rs < 256 ->
  let b := flags_byte n rs ca in
  Z.shiftr b 5 = Z.land rs 7 /\
  Z.land (Z.shiftr b 5) 7 = Z.land rs 7 /\
  Z.land (Z.shiftr b 4) 1 = (if ca then 1 else 0) /\
  b mod 16 = n /\ 0 <= b < 256.
Proof.
  intros Hn Hrs b. pose proof flags_all as A. rewrite forallb_forall in A.
  specialize (A n (in_range n 16 ltac:(lia))). rewrite forallb_forall in A.
  specialize (A rs (in_range rs 256 ltac:(lia))).
  apply andb_true_iff in A as [At Af].
  assert (Hb : flags_ok n rs ca = true) by (destruct ca; assumption).
  unfold flags_ok in Hb. fold b in Hb.
  repeat rewrite andb_true_iff in Hb.
  destruct Hb as [[[[[B1 B2] B3] B4] B5] B6].
  apply Z.eqb_eq in B1, B2, B3, B4. apply Z.leb_le in B5. apply Z.ltb_lt in B6.
  repeat split; assumption.
Qed.

Lemma dl_serialize_length ds : forall size,
  let '(b, s, n) := dl_serialize ds size in (length b + s = size)%nat.
Proof.
  induction ds as [|d r IH]; intros size; simpl; auto.
  destruct (Nat.leb_spec (length d) size); simpl; auto.
  specialize (IH (size - length d)%nat).
  destruct (dl_serialize r (size - length d)) as [[b s] n].
  rewrite length_app. lia.
Qed.

(** Claim C6: in the bytes that [EIT::serialize] writes for an event, the
    upper 3 bits of the descriptor loop length field hold running_status and
    the next bit holds CA_controlled; the decoding of [EIT::deserialize]
    gives them back, together with the 12-bit loop length. A running_status
    of 3 bits comes back unchanged. *)
Theorem eit_event_flags_roundtrip (ev : Event) (ds : list ByteBlock) (size start : nat) :
  0 <= running_status ev < 256 ->
  (size < 4096)%nat ->
  let '(field, b, _, _) := lengthSerialize ds size start in
  let e := event_entry ev field b in
  Z.shiftr (nth 10 e 0) 5 = Z.land (running_status ev) 7 /\
  Z.land (Z.shiftr (nth 10 e 0) 4) 1 = (if CA_controlled ev then 1 else 0) /\
  deserialize_event_flags e
    = (Z.land (running_status ev) 7, CA_controlled ev, Z.of_nat (length b)) /\
  (running_status ev < 8 -> Z.land (running_status ev) 7 = running_status ev).
Proof.
  intros Hrs Hsize. unfold lengthSerialize.
  pose proof (dl_serialize_length (skipn start ds) (size - 2)) as Hl.
  destruct (dl_serialize (skipn start ds) (size - 2)) as [[b s] n].
  set (len := Z.of_nat (length b)).
  assert (Hlen : 0 <= len < 4096) by (unfold len; lia).
  destruct (length_field_spec len Hlen) as [Hhi Hlo].
  cbv zeta.
  assert (H10 : nth 10 (event_entry ev (PutUInt16 (Z.lor len 61440)) b) 0
                = flags_byte (len / 256) (running_status ev) (CA_controlled ev)).
  { unfold event_entry, flags_byte, PutUInt16. simpl. rewrite Hhi. reflexivity. }
  destruct (flags_spec (len / 256) (running_status ev) (CA_controlled ev))
    as [F1 [F2 [F3 [F4 F5]]]]; [split; [apply Z.div_pos | apply Z.div_lt_upper_bound]; lia | lia |].
  set (fb := flags_byte (len / 256) (running_status ev) (CA_controlled ev)) in *.
  rewrite H10. split; [exact F1|]. split; [exact F3|]. split.
  - unfold deserialize_event_flags. rewrite H10, F2.
    f_equal; [f_equal; now rewrite F3; destruct (CA_controlled ev) |].
    unfold GetUInt16. simpl skipn.
    replace (nth 0 _ 0) with fb by (symmetry; exact H10).
    unfold event_entry, PutUInt16. simpl nth. rewrite Hlo.
    change 4095 with (Z.ones 12). rewrite Z.land_ones by lia.
    rewrite (Z.div_mod fb 16) by lia. rewrite F4.
    replace ((16 * (fb / 16) + len / 256) * 256 + len mod 256)
      with ((len / 256 * 256 + len mod 256) + (fb / 16) * 2 ^ 12) by (change (2 ^ 12) with 4096; ring).
    rewrite Z.mod_add by lia.
    rewrite (Z.mul_comm (len / 256) 256), <- Z.div_mod by lia.
    apply Z.mod_small. lia.
  - intros H8. change 7 with (Z.ones 3). rewrite Z.land_ones by lia.
    apply Z.mod_small. simpl. lia.
Qed.

End EITFlagsFacts.

Module EITWitnesses.
Import EIT EITFacts EITFlagsFacts.

Definition ev_example (id : Z) : Event :=
  mkEvent id 0 5400 4 true [[72; 3; 1; 2; 3]].

(** Three events of 17 bytes each; with a section payload of at most 40
    bytes (34 after the 6 fixed bytes), only one event fits per section. *)
Definition eit_example : EIT :=
  mkEIT true 1 2 0 78 [ev_example 1; ev_example 2; ev_example 3].

Lemma eit_events_not_split_witness :
  (forall ev, In ev (events eit_example) ->
     (12 + binarySize (descs ev) <= 40 - 6)%nat) /\
  (let fixed := PutUInt16 (ts_id eit_example) ++ PutUInt16 (onetw_id eit_example)
                ++ [segment_last eit_example; last_table_id eit_example] in
   exists P : list (list Event),
     map snd (serialize 40 eit_example) = map (section_of fixed) P /\
     (_is_valid eit_example = true -> concat P = events eit_example)).
Proof.
  assert (Hfit : forall ev, In ev (events eit_example) ->
                   (12 + binarySize (descs ev) <= 40 - 6)%nat).
  { intros ev Hin. simpl in Hin.
    repeat (destruct Hin as [<- | Hin]; [vm_compute; lia |]). contradiction. }
  split; [exact Hfit|]. exact (eit_events_not_split 40 eit_example Hfit).
Defined.

Lemma eit_event_flags_roundtrip_witness :
  0 <= running_status (ev_example 7) < 256 /\ (100 < 4096)%nat /\
  (let '(field, b, _, _) := lengthSerialize (descs (ev_example 7)) 100 0 in
   let e := event_entry (ev_example 7) field b in
   Z.shiftr (nth 10 e 0) 5 = Z.land (running_status (ev_example 7)) 7 /\
   Z.land (Z.shiftr (nth 10 e 0) 4) 1
     = (if CA_controlled (ev_example 7) then 1 else 0) /\
   deserialize_event_flags e
     = (Z.land (running_status (ev_example 7)) 7, CA_controlled (ev_example 7),
        Z.of_nat (length b)) /\
   (running_status (ev_example 7) < 8 ->
    Z.land (running_status (ev_example 7)) 7 = running_status (ev_example 7))).
Proof.
  assert (H1 : 0 <= running_status (ev_example 7) < 256) by (simpl; lia).
  assert (H2 : (100 < 4096)%nat) by lia.
  split; [exact H1|]. split; [exact H2|].
  exact (eit_event_flags_roundtrip (ev_example 7) (descs (ev_example 7)) 100 0 H1 H2).
Defined.

End EITWitnesses.

(* ------------------------------------------------------------------------ *)
(** ** PCRVerify: the jitter of successive PCRs *)

Module PCRVerifyFacts.
Import PCRVerify.

Lemma wrap64_small z : - 2 ^ 63 <= z < 2 ^ 63 -> wrap64 z = z.
Proof.
  intros H. unfold wrap64. rewrite Z.mod_small; lia.
Qed.

Lemma jitter_in_range pcr1 pkt1 pcr2 pkt2 r :
  let N := r * (pcr2 - pcr1) - (pkt2 - pkt1) * 188 * 8 * 27000000 in
  0 < r -> 0 <= N < 2 ^ 63 -> jitter pcr1 pkt1 pcr2 pkt2 r = N / r.
Proof.
  intros N Hr HN. unfold jitter.
  destruct (Z.eqb_spec r 0) as [E|_]; [lia|].
  unfold PKT_SIZE, SYSTEM_CLOCK_FREQ. fold N.
  rewrite (wrap64_small N) by lia.
  rewrite Z.quot_div_nonneg by lia.
  apply wrap64_small.
  assert (0 <= N / r) by (apply Z.div_pos; lia).
  assert (N / r <= N) by (apply Z.div_le_upper_bound; nia).
  lia.
Qed.

(** Claim C4 (corrected): the jitter computed for a PCR of a filtered PID
    is 0 when the bitrate is 0, and [(r*(pcr2-pcr1) - (p2-p1)*188*8*27000000) / r]
    (truncated) for a bitrate r > 0 when this numerator lies in [0, 2^63);
    it is computed only when the previous PCR value of the PID is nonzero,
    and the PCR and its packet index become the PID's previous PCR. *)
Theorem pcr_jitter_successive (cfg : Config) (st : State) (pid pcr2 : Z) :
  _pid_list cfg pid = true ->
  let pc := _stats st pid in
  let r := if negb (_bitrate cfg =? 0) then _bitrate cfg else tsp_bitrate cfg in
  let N := r * (pcr2 - last_pcr_value pc)
           - (_packet_count st - last_pcr_packet pc) * 188 * 8 * 27000000 in
  let '(st', jit) := processPacket cfg st (mkTSPacket pid (Some pcr2)) in
  _stats st' pid = mkPIDContext pcr2 (_packet_count st) /\
  (last_pcr_value pc = 0 -> jit = None) /\
  (last_pcr_value pc <> 0 -> r = 0 -> jit = Some 0) /\
  (last_pcr_value pc <> 0 -> 0 < r -> 0 <= N < 2 ^ 63 -> jit = Some (N / r)).
Proof.
  intros Hpid pc r N. unfold processPacket. cbn [pkt_pid pkt_pcr]. rewrite Hpid.
  fold pc. fold r. cbn [_stats]. split.
  { unfold update_stats. now rewrite Z.eqb_refl. }
  split; [intros H0; now rewrite H0, Z.eqb_refl|].
  split.
  - intros H0 Hr. apply Z.eqb_neq in H0. rewrite H0. rewrite Hr. reflexivity.
  - intros H0 Hr HN. apply Z.eqb_neq in H0. rewrite H0.
    f_equal. apply jitter_in_range; assumption.
Qed.

End PCRVerifyFacts.

Module PCRVerifyExamples.
Import PCRVerify PCRVerifyFacts.

(** PID 100 filtered, --bitrate 100000000 (100 Mb/s). *)
Definition cfg_example : Config := mkConfig (fun p => p =? 100) 100000000 0.

(** Two successive packets of PID 100 with PCRs 1 and 10^12. *)
Definition pkts_example : list TSPacket :=
  [mkTSPacket 100 (Some 1); mkTSPacket 100 (Some 1000000000000)].

(** Claim C4: counterexample. For the PCRs 1 (packet 0) and 10^12
    (packet 1) at 100 Mb/s, the exact value of the formula is
    999999999592, but the 64-bit numerator wraps around and the jitter
    computed is 77662795907. *)
Theorem pcr_jitter_overflow :
  run cfg_example initial_state pkts_example = [None; Some 77662795907] /\
  (100000000 * (1000000000000 - 1) - (1 - 0) * 188 * 8 * 27000000) / 100000000
    = 999999999592 /\
  77662795907 <> 999999999592.
Proof.
  split; [vm_compute; reflexivity|]. split; [vm_compute; reflexivity|]. discriminate.
Qed.

Lemma pcr_jitter_successive_witness :
  _pid_list cfg_example 100 = true /\
  (let st := mkState 250 (fun _ => mkPIDContext 1000000 240) in
   let pc := _stats st 100 in
   let r := if negb (_bitrate cfg_example =? 0) then _bitrate cfg_example
            else tsp_bitrate cfg_example in
   let N := r * (1200000 - last_pcr_value pc)
            - (_packet_count st - last_pcr_packet pc) * 188 * 8 * 27000000 in
   let '(st', jit) := processPacket cfg_example st (mkTSPacket 100 (Some 1200000)) in
   _stats st' 100 = mkPIDContext 1200000 (_packet_count st) /\
   (last_pcr_value pc = 0 -> jit = None) /\
   (last_pcr_value pc <> 0 -> r = 0 -> jit = Some 0) /\
   (last_pcr_value pc <> 0 -> 0 < r -> 0 <= N < 2 ^ 63 -> jit = Some (N / r))).
Proof.
  assert (H : _pid_list cfg_example 100 = true) by reflexivity.
  split; [exact H|].
  exact (pcr_jitter_successive cfg_example (mkState 250 (fun _ => mkPIDContext 1000000 240))
           100 1200000 H).
Defined.

End PCRVerifyExamples.

(* ------------------------------------------------------------------------ *)
(** ** ClearFilter: dropping after the last clear packet *)

Module ClearFilterFacts.
Import ClearFilter.

Lemma run_nth br ps : forall st i p,
  nth_error ps i = Some p ->
  nth_error (run br st ps) i = Some (snd (processPacket br (states br st (firstn i ps)) p)).
Proof.
  induction ps as [|q r IH]; intros st i p H; [destruct i; discriminate|].
  destruct i as [|i]; cbn [nth_error run] in H |- *.
  - injection H as ->. change (states br st (firstn 0 (p :: r))) with st.
    destruct (processPacket br st p) as [st' s]. reflexivity.
  - destruct (processPacket br st q) as [st' s] eqn:E. cbn [nth_error].
    rewrite (IH st' i p H). unfold states. cbn [firstn fold_left]. rewrite E. reflexivity.
Qed.

Lemma states_S br ps : forall st n p,
  nth_error ps n = Some p ->
  states br st (firstn (S n) ps) = fst (processPacket br (states br st (firstn n ps)) p).
Proof.
  induction ps as [|q r IH]; intros st n p H; [destruct n; discriminate|].
  destruct n as [|n]; simpl in H.
  - injection H as ->. reflexivity.
  - unfold states in *. simpl. apply IH. exact H.
Qed.

(** One step without demux error and with a nonzero hold-off. *)
Lemma step_spec br st p :
  _abort st = false -> demux_abort p = false -> _drop_after st <> O ->
  let '(pass0, lc) := if clear_monitored p then (true, _current_pkt st)
                      else (_pass_packets st, _last_clear_pkt st) in
  let pass := pass0 && negb (Nat.ltb (_drop_after st) (_current_pkt st - lc)) in
  processPacket br st p
  = (mkClearState false pass (_drop_after st) (S (_current_pkt st)) lc (_drop_status st),
     if pass then TSP_OK else _drop_status st).
Proof.
  intros Ha Hp HD. unfold processPacket. rewrite Ha, Hp. simpl orb. cbv iota.
  apply Nat.eqb_neq in HD. rewrite HD.
  destruct (clear_monitored p); cbv iota beta; rewrite HD;
    [|destruct (_pass_packets st)]; cbv iota;
    destruct (Nat.ltb _ _); reflexivity.
Qed.

Section Run.
Variable br : nat.
Variable stuffing : bool.
Variable D : nat.
Hypothesis HD : D <> O.
Variable ps : list Packet.
Hypothesis Hnoabort : forall p, In p ps -> demux_abort p = false.

Let st0 := start stuffing D.
Let ds := if stuffing then TSP_NULL else TSP_DROP.

Lemma basic n : (n <= length ps)%nat ->
  let st := states br st0 (firstn n ps) in
  _abort st = false /\ _drop_after st = D /\ _current_pkt st = n /\
  _drop_status st = ds /\ (_last_clear_pkt st <= n)%nat.
Proof.
  induction n as [|n IH]; intros Hn.
  - simpl. unfold st0, start, ds. simpl. repeat split; lia.
  - destruct (nth_error ps n) as [p|] eqn:Ep;
      [|apply nth_error_None in Ep; lia].
    cbv zeta. rewrite (states_S br ps st0 n p Ep).
    destruct (IH ltac:(lia)) as [Ha [Hd [Hc [Hs Hl]]]].
    assert (Hp : demux_abort p = false)
      by (apply Hnoabort; eapply nth_error_In; exact Ep).
    pose proof (step_spec br (states br st0 (firstn n ps)) p Ha Hp
                  ltac:(rewrite Hd; exact HD)) as E.
    destruct (clear_monitored p); rewrite E; simpl; repeat split; auto; lia.
Qed.

(** A clear packet on a monitored PID is always forwarded. *)
Lemma clear_passes k : clear_at ps k = true ->
  nth_error (run br st0 ps) k = Some TSP_OK.
Proof.
  unfold clear_at. intros Hk.
  destruct (nth_error ps k) as [p|] eqn:Ep; [|discriminate].
  rewrite (run_nth br ps st0 k p Ep). f_equal.
  assert (Hlen : (k <= length ps)%nat)
    by (assert (k < length ps)%nat by (apply nth_error_Some; congruence); lia).
  destruct (basic k Hlen) as [Ha [Hd [Hc [Hs Hl]]]].
  assert (Hp : demux_abort p = false)
    by (apply Hnoabort; eapply nth_error_In; exact Ep).
  pose proof (step_spec br (states br st0 (firstn k ps)) p Ha Hp
                ltac:(rewrite Hd; exact HD)) as E.
  rewrite Hk in E. rewrite E. simpl.
  rewrite Nat.sub_diag. destruct D; [contradiction|reflexivity].
Qed.

Variable c : nat.
Hypothesis Hc : clear_at ps c = true.

(** After the packets up to [c + d], none of them clear after [c]: the last
    clear packet is [c], and packets pass as long as [d <= D]. *)
Lemma window d : (c + d < length ps)%nat ->
  (forall i, (c < i <= c + d)%nat -> clear_at ps i = false) ->
  let st := states br st0 (firstn (S (c + d)) ps) in
  _last_clear_pkt st = c /\ _pass_packets st = Nat.leb d D.
Proof.
  induction d as [|d IH]; intros Hlen Hnone.
  - rewrite Nat.add_0_r in *. cbv zeta.
    unfold clear_at in Hc. destruct (nth_error ps c) as [p|] eqn:Ep; [|discriminate].
    rewrite (states_S br ps st0 c p Ep).
    destruct (basic c ltac:(lia)) as [Ha [Hd [Hcur [Hs Hl]]]].
    assert (Hp : demux_abort p = false)
      by (apply Hnoabort; eapply nth_error_In; exact Ep).
    pose proof (step_spec br (states br st0 (firstn c ps)) p Ha Hp
                  ltac:(rewrite Hd; exact HD)) as E.
    rewrite Hc in E. rewrite E. simpl. rewrite Hcur, Nat.sub_diag, Hd.
    split; [reflexivity|]. destruct D; [contradiction|reflexivity].
  - cbv zeta.
    destruct (IH ltac:(lia) ltac:(intros i Hi; apply Hnone; lia)) as [Hlc Hpass].
    assert (Hn : clear_at ps (c + S d) = false) by (apply Hnone; lia).
    unfold clear_at in Hn.
    destruct (nth_error ps (c + S d)) as [p|] eqn:Ep;
      [|apply nth_error_None in Ep; lia].
    replace (S (c + S d)) with (S (S (c + d))) by lia.
    replace (c + S d)%nat with (S (c + d)) in Ep by lia.
    rewrite (states_S br ps st0 (S (c + d)) p Ep).
    destruct (basic (S (c + d)) ltac:(lia)) as [Ha [Hd [Hcur [Hs Hl]]]].
    assert (Hp : demux_abort p = false)
      by (apply Hnoabort; eapply nth_error_In; exact Ep).
    pose proof (step_spec br (states br st0 (firstn (S (c + d)) ps)) p Ha Hp
                  ltac:(rewrite Hd; exact HD)) as E.
    rewrite Hn, Hlc, Hpass, Hcur, Hd in E. cbv beta iota zeta in E.
    rewrite E. cbn [_last_clear_pkt _pass_packets fst].
    split; [reflexivity|].
    replace (S (c + d) - c)%nat with (S d) by lia.
    destruct (Nat.leb_spec d D), (Nat.leb_spec (S d) D), (Nat.ltb_spec D (S d));
      simpl; try reflexivity; lia.
Qed.

(** The status of packet [c + d] under the same hypotheses. *)
Lemma window_status d : (c + d < length ps)%nat ->
  (forall i, (c < i <= c + d)%nat -> clear_at ps i = false) ->
  nth_error (run br st0 ps) (c + d) = Some (if Nat.leb d D then TSP_OK else ds).
Proof.
  intros Hlen Hnone.
  destruct d as [|d].
  - rewrite Nat.add_0_r. rewrite (clear_passes c Hc). reflexivity.
  - destruct (window (S d) Hlen Hnone) as [Hlc Hpass].
    assert (Hn : clear_at ps (c + S d) = false) by (apply Hnone; lia).
    unfold clear_at in Hn.
    destruct (nth_error ps (c + S d)) as [p|] eqn:Ep;
      [|apply nth_error_None in Ep; lia].
    rewrite (run_nth br ps st0 (c + S d) p Ep). f_equal.
    rewrite (states_S br ps st0 (c + S d) p Ep) in Hpass, Hlc.
    destruct (basic (c + S d) ltac:(lia)) as [Ha [Hd [Hcur [Hs Hl]]]].
    assert (Hp : demux_abort p = false)
      by (apply Hnoabort; eapply nth_error_In; exact Ep).
    pose proof (step_spec br (states br st0 (firstn (c + S d) ps)) p Ha Hp
                  ltac:(rewrite Hd; exact HD)) as E.
    rewrite Hn in E. rewrite E in Hpass, Hlc |- *. simpl in Hpass |- *.
    rewrite Hpass, Hs. reflexivity.
Qed.

End Run.

(** The same, for any hold-off [D] and any clear packet [c]. *)
Lemma drop_after_general (br : nat) (stuffing : bool) (D c : nat) (ps : list Packet) (k : nat) :
  D <> O ->
  (forall p, In p ps -> demux_abort p = false) ->
  clear_at ps c = true ->
  (forall i, (c < i < k)%nat -> clear_at ps i = false) ->
  let out := run br (start stuffing D) ps in
  (forall i, (c <= i <= c + D)%nat -> (i < k)%nat -> (i < length ps)%nat ->
     nth_error out i = Some TSP_OK) /\
  (forall i, (c + D < i < k)%nat -> (i < length ps)%nat ->
     nth_error out i = Some (if stuffing then TSP_NULL else TSP_DROP)) /\
  (clear_at ps k = true -> nth_error out k = Some TSP_OK).
Proof.
  intros HD Hab Hc Hnone out. split; [|split].
  - intros i Hi Hik Hlen.
    replace i with (c + (i - c))%nat by lia.
    unfold out. rewrite (window_status br stuffing D HD ps Hab c Hc
                           (i - c) ltac:(lia) ltac:(intros j Hj; apply Hnone; lia)).
    destruct (Nat.leb_spec (i - c) D); [reflexivity|lia].
  - intros i Hi Hlen.
    replace i with (c + (i - c))%nat by lia.
    unfold out. rewrite (window_status br stuffing D HD ps Hab c Hc
                           (i - c) ltac:(lia) ltac:(intros j Hj; apply Hnone; lia)).
    destruct (Nat.leb_spec (i - c) D); [lia|reflexivity].
  - intros Hk. exact (clear_passes br stuffing D HD ps Hab k Hk).
Qed.

(** Claim C8: with --drop-after-packets=1000, when packet 5000 is a clear
    packet of a monitored PID and the packets after it up to packet k
    (excluded) are not, packets 5000 to 6000 are forwarded, every packet
    from 6001 up to k (excluded) is dropped (replaced by a null packet with
    --stuffing), and packet k, if it is a clear packet of a monitored PID,
    is forwarded again. No demux error occurs in the stream. *)
Theorem clear_filter_drop_after (br : nat) (stuffing : bool) (ps : list Packet) (k : nat) :
  (forall p, In p ps -> demux_abort p = false) ->
  clear_at ps 5000 = true ->
  (forall i, (5000 < i < k)%nat -> clear_at ps i = false) ->
  let out := run br (start stuffing 1000) ps in
  (forall i, (5000 <= i <= 6000)%nat -> (i < k)%nat -> (i < length ps)%nat ->
     nth_error out i = Some TSP_OK) /\
  (forall i, (6001 <= i < k)%nat -> (i < length ps)%nat ->
     nth_error out i = Some (if stuffing then TSP_NULL else TSP_DROP)) /\
  (clear_at ps k = true -> nth_error out k = Some TSP_OK).
Proof.
  intros Hab H5000 Hnone out.
  destruct (drop_after_general br stuffing 1000 5000 ps k ltac:(discriminate)
              Hab H5000 Hnone) as [A [B C]].
  assert (E1 : (5000 + 1000 = 6000)%nat) by reflexivity.
  assert (E2 : (6001 = S 6000)%nat) by reflexivity.
  split; [|split].
  - intros i Hi. apply A. lia.
  - intros i Hi. apply B. lia.
  - exact C.
Qed.

End ClearFilterFacts.

Module ClearFilterExamples.
Import ClearFilter ClearFilterFacts.

Definition scrambled : Packet := mkPacket false false.
Definition clear : Packet := mkPacket true false.

(** Packet 5000 is clear, packets 5001 to 6500 are scrambled, packet 6501
    is clear again. *)
Definition ps_example : list Packet :=
  repeat scrambled 5000 ++ [clear] ++ repeat scrambled 1500 ++ [clear].

Lemma clear_filter_drop_after_witness :
  (forall p, In p ps_example -> demux_abort p = false) /\
  clear_at ps_example 5000 = true /\
  (forall i, (5000 < i < 6501)%nat -> clear_at ps_example i = false) /\
  (let out := run 0 (start true 1000) ps_example in
   (forall i, (5000 <= i <= 6000)%nat -> (i < 6501)%nat -> (i < length ps_example)%nat ->
      nth_error out i = Some TSP_OK) /\
   (forall i, (6001 <= i < 6501)%nat -> (i < length ps_example)%nat ->
      nth_error out i = Some (if true then TSP_NULL else TSP_DROP)) /\
   (clear_at ps_example 6501 = true -> nth_error out 6501 = Some TSP_OK)).
Proof.
  assert (H1 : forall p, In p ps_example -> demux_abort p = false).
  { intros p Hin.
    assert (A : forallb (fun p => negb (demux_abort p)) ps_example = true)
      by (vm_compute; reflexivity).
    rewrite forallb_forall in A. apply negb_true_iff. exact (A p Hin). }
  assert (H2 : clear_at ps_example 5000 = true) by (vm_compute; reflexivity).
  assert (H3 : forall i, (5000 < i < 6501)%nat -> clear_at ps_example i = false).
  { intros i Hi.
    assert (A : forallb (fun i => negb (clear_at ps_example i)) (seq 5001 1500) = true)
      by (vm_compute; reflexivity).
    rewrite forallb_forall in A. apply negb_true_iff. apply A. apply in_seq.
    assert (E1 : (5001 = S 5000)%nat) by reflexivity.
    assert (E2 : (5001 + 1500 = 6501)%nat) by reflexivity.
    lia. }
  split; [exact H1|]. split; [exact H2|]. split; [exact H3|].
  exact (clear_filter_drop_after 0 true ps_example 6501 H1 H2 H3).
Defined.

End ClearFilterExamples.

(* ------------------------------------------------------------------------ *)
(** ** PCRExtract: the time stamps selected by the options *)

Module PCRExtractExamples.
Import PCRExtract.

(** Only --pts on the command line. *)
Definition pts_only : Options := mkOptions false true false false false.

Definition pkt_pts : TSPacket := mkTSPacket false false true false true.
Definition pkt_dts : TSPacket := mkTSPacket false false false true true.

(** Claim C9: with --pts alone, a packet carrying a PTS produces no report
    line, while a packet carrying a DTS produces a DTS line: [start] stores
    --pts in [_get_dts] and --dts in [_get_pts]. The documented selection
    would give a PTS line and no DTS line. *)
Theorem pcrextract_pts_option_swapped :
  report_lines (start pts_only) pkt_pts = [] /\
  report_lines (start pts_only) pkt_dts = [LineDTS] /\
  report_lines (documented_flags pts_only) pkt_pts = [LinePTS] /\
  report_lines (documented_flags pts_only) pkt_dts = [].
Proof. repeat split. Qed.

End PCRExtractExamples.

(* ------------------------------------------------------------------------ *)

Module DescriptorOpsFacts.
Import Descriptor DescriptorOps.

Lemma u8_small z : 0 <= z < 256 -> u8 z = z.
Proof. intros H. unfold u8. apply Z.mod_small. exact H. Qed.

(** A block [t :: len :: data] with [len] the size of [data] passes the
    size check of [Descriptor(const ByteBlock&)]. *)
Lemma from_bytes_header t data :
  (length data < 256)%nat ->
  from_bytes ([t; Z.of_nat (length data)] ++ data)
  = mkDescriptor (Some ([t; Z.of_nat (length data)] ++ data)).
Proof.
  intros H. unfold from_bytes, size_check.
  replace ((2 <=? Z.of_nat (length ([t; Z.of_nat (length data)] ++ data)))
           && (Z.of_nat (length ([t; Z.of_nat (length data)] ++ data)) <? 258)
           && (nth 1 ([t; Z.of_nat (length data)] ++ data) 0
               =? Z.of_nat (length ([t; Z.of_nat (length data)] ++ data)) - 2))
    with true; [reflexivity|].
  symmetry. rewrite !andb_true_iff, Z.leb_le, Z.ltb_lt, Z.eqb_eq.
  cbn [length app nth]. lia.
Qed.

(** [Descriptor(tag, data)] builds a valid descriptor with this tag and
    payload, whose block passes the check of [Descriptor(const ByteBlock&)],
    when the data has fewer than 256 bytes; otherwise the descriptor is
    invalid. *)
Theorem descriptor_tag_data_ctor (t : Z) (data : ByteBlock) :
  ((length data < 256)%nat ->
   let d := from_tag_data t data in
   isValid d = true /\ tag d = t /\ payload d = data /\
   exists bb, _data d = Some bb /\ from_bytes bb = d) /\
  ((256 <= length data)%nat -> isValid (from_tag_data t data) = false).
Proof.
  split.
  - intros H d. unfold d, from_tag_data.
    replace (length data <? 256)%nat with true by (symmetry; apply Nat.ltb_lt; exact H).
    rewrite u8_small by lia.
    split; [reflexivity|]. split; [reflexivity|]. split; [reflexivity|].
    eexists; split; [reflexivity|]. apply from_bytes_header. exact H.
  - intros H. unfold from_tag_data.
    replace (length data <? 256)%nat with false by (symmetry; apply Nat.ltb_ge; exact H).
    reflexivity.
Qed.

(** [replacePayload] on a descriptor block (at least 2 bytes) with a new
    payload of at most 255 bytes keeps the tag, installs the new payload and
    sets the length byte, so that the block passes the constructor check
    again; a longer payload invalidates the descriptor, and an invalid
    descriptor is left as it is. *)
Theorem replacePayload_spec (d : Descriptor) (addr : ByteBlock) :
  ((length addr <= 255)%nat -> forall bb, _data d = Some bb -> (2 <= length bb)%nat ->
   let d' := replacePayload d addr in
   tag d' = tag d /\ payload d' = addr /\
   exists bb', _data d' = Some bb' /\ from_bytes bb' = d') /\
  ((255 < length addr)%nat -> isValid (replacePayload d addr) = false) /\
  (isValid d = false -> (length addr <= 255)%nat -> replacePayload d addr = d).
Proof.
  split; [|split].
  - intros Ha bb Hd Hb d'. unfold d', replacePayload.
    replace (255 <? length addr)%nat with false by (symmetry; apply Nat.ltb_ge; exact Ha).
    rewrite Hd. destruct bb as [|b0 [|b1 r]]; simpl in Hb; try lia.
    cbn [firstn app set_byte1 length].
    replace (Z.of_nat (S (S (length addr))) - 2) with (Z.of_nat (length addr)) by lia.
    rewrite u8_small by lia.
    unfold tag, payload. rewrite Hd. simpl.
    split; [reflexivity|]. split; [reflexivity|].
    eexists; split; [reflexivity|].
    apply (from_bytes_header b0 addr). lia.
  - intros Ha. unfold replacePayload.
    replace (255 <? length addr)%nat with true by (symmetry; apply Nat.ltb_lt; exact Ha).
    reflexivity.
  - intros Hv Ha. unfold replacePayload.
    replace (255 <? length addr)%nat with false by (symmetry; apply Nat.ltb_ge; exact Ha).
    unfold isValid in Hv. destruct (_data d); [discriminate|reflexivity].
Qed.

(** [resizePayload n] on a descriptor block (at least 2 bytes) with
    [n <= 255] keeps the tag, truncates the payload to [n] bytes or extends
    it with zero bytes, and sets the length byte, so that the block passes
    the constructor check again; [n > 255] invalidates the descriptor. *)
Theorem resizePayload_spec (d : Descriptor) (n : nat) :
  ((n <= 255)%nat -> forall bb, _data d = Some bb -> (2 <= length bb)%nat ->
   let d' := resizePayload d n in
   tag d' = tag d /\
   payload d' = firstn n (payload d) ++ repeat 0 (n - length (payload d)) /\
   length (payload d') = n /\
   exists bb', _data d' = Some bb' /\ from_bytes bb' = d') /\
  ((255 < n)%nat -> isValid (resizePayload d n) = false).
Proof.
  split.
  - intros Hn bb Hd Hb d'. unfold d', resizePayload.
    replace (255 <? n)%nat with false by (symmetry; apply Nat.ltb_ge; exact Hn).
    rewrite Hd. destruct bb as [|b0 [|b1 r]]; simpl in Hb; try lia.
    replace (n + 2)%nat with (S (S n)) by lia.
    cbn [firstn app set_byte1 length].
    replace (S (S n) - S (S (length r)))%nat with (n - length r)%nat by lia.
    assert (Hl : length (firstn n r ++ repeat 0 (n - length r)) = n)
      by (rewrite length_app, length_firstn, repeat_length; lia).
    rewrite Hl.
    replace (Z.of_nat (S (S n)) - 2) with (Z.of_nat n) by lia.
    rewrite u8_small by lia.
    unfold tag, payload. rewrite Hd. simpl.
    split; [reflexivity|]. split; [reflexivity|]. split; [exact Hl|].
    eexists; split; [reflexivity|].
    pose proof (from_bytes_header b0 (firstn n r ++ repeat 0 (n - length r))
                  ltac:(rewrite Hl; lia)) as F.
    rewrite Hl in F. exact F.
  - intros Hn. unfold resizePayload.
    replace (255 <? n)%nat with true by (symmetry; apply Nat.ltb_lt; exact Hn).
    reflexivity.
Qed.

End DescriptorOpsFacts.

(* ------------------------------------------------------------------------ *)

Module DescriptorListOpsFacts.
Import Descriptor DescriptorList DescriptorListOps.

(** The loop of [serialize] writes whole descriptors from the first one and
    stops at the first one that does not fit in the remaining room. *)
Lemma dl_serialize_spec ds : forall size,
  let '(b, s, n) := EIT.dl_serialize ds size in
  (n <= length ds)%nat /\ b = concat (firstn n ds) /\ (length b + s = size)%nat /\
  ((n < length ds)%nat -> (s < length (nth n ds []))%nat).
Proof.
  induction ds as [|d r IH]; intros size; cbn [EIT.dl_serialize].
  - simpl. repeat split; lia.
  - destruct (Nat.leb_spec (length d) size) as [Hle|Hgt].
    + specialize (IH (size - length d)%nat).
      destruct (EIT.dl_serialize r (size - length d)) as [[b s] n].
      destruct IH as [H1 [H2 [H3 H4]]].
      cbn [length firstn concat nth]. rewrite length_app.
      split; [lia|]. split; [rewrite H2; reflexivity|]. split; [lia|].
      intros Hn. apply H4. lia.
    + simpl. repeat split; lia.
Qed.

Lemma nth_contents l n :
  nth n (contents l) [] = content (desc (nth n l dummy)).
Proof.
  unfold contents. change [] with (content (desc dummy)) at 1.
  exact (map_nth (fun e => content (desc e)) l dummy n).
Qed.

Lemma binarySize_length_concat l :
  length (concat (contents l)) = binarySize l.
Proof. unfold binarySize. apply EITFacts.concat_length_binarySize. Qed.

(** [DescriptorList::serialize(addr, size, start)] writes the descriptors
    from index [start] in order, as long as each one fits in the remaining
    room: it returns the index [i] of the first descriptor not written,
    the bytes written are the contents of the descriptors [start .. i-1],
    the room left plus the bytes written is [size], and the descriptor at
    [i], if any, is larger than the room left. When all the descriptors from
    [start] fit, they are all written and the index returned is the size
    of the list. *)
Theorem serialize_spec (l : list Element) (size start : nat) :
  let '(b, s, i) := serialize l size start in
  (start <= i)%nat /\
  b = concat (contents (firstn (i - start) (skipn start l))) /\
  (length b + s = size)%nat /\
  ((i < length l)%nat -> (s < length (content (desc (nth i l dummy))))%nat) /\
  ((start <= length l)%nat -> (binarySize (skipn start l) <= size)%nat ->
   i = length l /\ b = concat (contents (skipn start l)) /\
   s = (size - binarySize (skipn start l))%nat).
Proof.
  unfold serialize.
  pose proof (dl_serialize_spec (contents (skipn start l)) size) as H.
  destruct (EIT.dl_serialize (contents (skipn start l)) size) as [[b s] n] eqn:E.
  destruct H as [H1 [H2 [H3 H4]]].
  unfold contents in H1. rewrite length_map, length_skipn in H1.
  replace (start + n - start)%nat with n by lia.
  split; [lia|]. split.
  { rewrite H2. unfold contents. rewrite firstn_map. reflexivity. }
  split; [exact H3|]. split.
  - intros Hi. specialize (H4 ltac:(unfold contents; rewrite length_map, length_skipn; lia)).
    rewrite nth_contents, nth_skipn in H4. exact H4.
  - intros Hs Hb.
    rewrite (EITFacts.dl_serialize_all (contents (skipn start l)) size Hb) in E.
    injection E as <- <- <-.
    unfold contents at 1. rewrite length_map, length_skipn.
    split; [lia|]. split; reflexivity.
Qed.

(** [add] appends the descriptor. *)
Lemma add_desc l d : map desc (add l d) = map desc l ++ [d].
Proof. unfold add. rewrite map_app. reflexivity. Qed.

(** A descriptor holding a block that passes the constructor check. *)
Definition well_formed (d : Descriptor) : Prop :=
  exists bb, _data d = Some bb /\ size_check bb (Z.of_nat (length bb)) = true.

Lemma well_formed_content d : well_formed d ->
  (2 <= length (content d))%nat /\
  nth 1 (content d) 0 = Z.of_nat (length (content d)) - 2 /\
  from_raw (content d) (length (content d)) = d.
Proof.
  intros [bb [Hd Hc]]. unfold content. rewrite Hd.
  unfold size_check in Hc. rewrite !andb_true_iff, Z.leb_le, Z.ltb_lt, Z.eqb_eq in Hc.
  split; [lia|]. split; [tauto|].
  unfold from_raw, size_check.
  replace ((2 <=? Z.of_nat (length bb)) && (Z.of_nat (length bb) <? 258)
           && (nth 1 bb 0 =? Z.of_nat (length bb) - 2)) with true
    by (symmetry; rewrite !andb_true_iff, Z.leb_le, Z.ltb_lt, Z.eqb_eq; tauto).
  rewrite firstn_all. destruct d; simpl in *; subst; reflexivity.
Qed.

Lemma add_memory_concat ds : forall f l,
  Forall well_formed ds -> (length ds <= f)%nat ->
  map desc (add_memory f l (concat (map content ds))) = map desc l ++ ds.
Proof.
  induction ds as [|d r IH]; intros f l Hw Hf.
  - rewrite app_nil_r. destruct f; reflexivity.
  - apply Forall_cons_iff in Hw as [Hd Hr].
    destruct f as [|f]; [simpl in Hf; lia|].
    destruct (well_formed_content d Hd) as [H2 [H1 Hraw]].
    cbn [map concat add_memory].
    set (rest := concat (map content r)).
    rewrite length_app.
    replace (2 <=? length (content d) + length rest)%nat with true
      by (symmetry; apply Nat.leb_le; lia).
    rewrite app_nth1 by lia. rewrite H1.
    replace (Z.to_nat (Z.of_nat (length (content d)) - 2 + 2)) with (length (content d)) by lia.
    replace (length (content d) <=? length (content d) + length rest)%nat with true
      by (symmetry; apply Nat.leb_le; lia).
    assert (Hsc : from_raw (content d ++ rest) (length (content d))
                  = from_raw (content d) (length (content d))).
    { unfold from_raw, size_check. rewrite app_nth1 by lia.
      rewrite firstn_app, firstn_all, Nat.sub_diag, firstn_O, app_nil_r.
      reflexivity. }
    rewrite Hsc.
    rewrite Hraw.
    rewrite skipn_app, skipn_all, Nat.sub_diag, skipn_O.
    simpl app. rewrite IH by (simpl in Hf; lia || assumption).
    rewrite add_desc, <- app_assoc. reflexivity.
Qed.

(** Round trip: when every descriptor of the list holds a block that passes
    the constructor check and the whole list fits in [size] bytes,
    [serialize] writes it entirely, and [add(data, size)] on the bytes
    written, from an empty list, gives back the same descriptors in the
    same order. *)
Theorem serialize_add_roundtrip (l : list Element) (size : nat) :
  Forall (fun e => well_formed (desc e)) l ->
  (binarySize l <= size)%nat ->
  let '(b, s, i) := serialize l size 0 in
  i = length l /\ map desc (add_memory (length b) [] b) = map desc l.
Proof.
  intros Hw Hs.
  pose proof (serialize_spec l size 0) as H.
  destruct (serialize l size 0) as [[b s] i].
  destruct H as [_ [_ [_ [_ H5]]]].
  rewrite skipn_O in H5. destruct (H5 ltac:(lia) Hs) as [Hi [Hb _]].
  split; [exact Hi|].
  assert (Hw' : Forall well_formed (map desc l)) by (apply Forall_map; exact Hw).
  assert (Hc : contents l = map content (map desc l))
    by (unfold contents; rewrite map_map; reflexivity).
  rewrite Hb, Hc.
  rewrite (add_memory_concat (map desc l)); [reflexivity|exact Hw'|].
  rewrite <- Hc, binarySize_length_concat.
  clear -Hw. unfold binarySize, contents.
  induction l as [|e r IH]; simpl; [lia|].
  apply Forall_cons_iff in Hw as [He Hr].
  destruct (well_formed_content (desc e) He) as [H2 _].
  specialize (IH Hr). lia.
Qed.





End DescriptorListOpsFacts.

(* ------------------------------------------------------------------------ *)

Module DescriptorListRemoveFacts.
Import Descriptor DescriptorList.

Lemma erase_split n l : (n < length l)%nat -> erase n l = firstn n l ++ skipn (S n) l.
Proof.
  revert l; induction n as [|n IH]; intros [|e r] H; simpl in *; try lia; try reflexivity.
  rewrite IH by lia. reflexivity.
Qed.

Lemma length_erase n l : (n < length l)%nat -> length (erase n l) = (length l - 1)%nat.
Proof.
  intros H. rewrite erase_split by exact H.
  rewrite length_app, length_firstn, length_skipn. lia.
Qed.

(** The condition under which [removeByTag] removes an element. *)
Definition tag_match (t p : Z) (check_pds : bool) (e : Element) : bool :=
  (tag (desc e) =? t) && (negb check_pds || (pds e =? p)).

Lemma removeByTag_loop_filter t p c (Ht : t <> DID_PRIV_DATA_SPECIF) : forall f it l cnt,
  (it <= length l)%nat -> (length l - it <= f)%nat ->
  removeByTag_loop f t p c it l cnt
  = (firstn it l ++ filter (fun e => negb (tag_match t p c e)) (skipn it l),
     (cnt + length (filter (tag_match t p c) (skipn it l)))%nat).
Proof.
  induction f as [|f IH]; intros it l cnt Hit Hf.
  - assert (it = length l) by lia. subst it.
    rewrite skipn_all, firstn_all. simpl. rewrite app_nil_r, Nat.add_0_r. reflexivity.
  - cbn [removeByTag_loop].
    destruct (nth_error l it) as [e|] eqn:Ee.
    + assert (Hlt : (it < length l)%nat) by (apply nth_error_Some; congruence).
      assert (Hsk : skipn it l = e :: skipn (S it) l).
      { clear -Ee. revert l Ee; induction it as [|i IHi]; intros [|x r] H; simpl in *;
          try discriminate.
        - injection H as ->. reflexivity.
        - apply IHi. exact H. }
      rewrite Hsk. cbn [filter].
      fold (tag_match t p c e).
      destruct (tag_match t p c e) eqn:Em; cbn [negb].
      * assert (Htag : (tag (desc e) =? DID_PRIV_DATA_SPECIF) = false).
        { unfold tag_match in Em. apply andb_true_iff in Em as [Em _].
          apply Z.eqb_eq in Em. rewrite Em. apply Z.eqb_neq. exact Ht. }
        rewrite Htag.
        rewrite IH.
        -- rewrite erase_split by exact Hlt.
           rewrite firstn_app, length_firstn, firstn_firstn.
           replace (Nat.min it it) with it by lia.
           replace (it - Nat.min it (length l))%nat with O by lia.
           rewrite firstn_O, app_nil_r.
           rewrite skipn_app, length_firstn.
           replace (it - Nat.min it (length l))%nat with O by lia.
           rewrite skipn_O, skipn_all2 by (rewrite length_firstn; lia).
           rewrite app_nil_l. f_equal. rewrite length_cons. lia.
        -- rewrite length_erase by exact Hlt. lia.
        -- rewrite length_erase by exact Hlt. lia.
      * rewrite IH by lia.
        assert (Hf2 : firstn (S it) l = firstn it l ++ [e]).
        { clear -Ee. revert l Ee; induction it as [|i IHi]; intros [|x r] H; simpl in *;
            try discriminate.
          - injection H as ->. reflexivity.
          - rewrite (IHi r H). reflexivity. }
        rewrite Hf2, <- app_assoc. reflexivity.
    + apply nth_error_None in Ee. assert (it = length l) by lia. subst it.
      rewrite skipn_all, firstn_all. simpl. rewrite app_nil_r, Nat.add_0_r. reflexivity.
Qed.

(** [DescriptorList::removeByTag(tag, pds)] for a tag other than the
    private_data_specifier_descriptor's removes exactly the descriptors
    with this tag (and, for a private tag (>= 0x80) with a nonzero PDS,
    with this PDS), keeps the others in their order with their PDS, and
    returns the number of descriptors removed. *)
Theorem removeByTag_filter (l : list Element) (t p : Z) :
  t <> DID_PRIV_DATA_SPECIF ->
  let c := negb (p =? 0) && (128 <=? t) in
  removeByTag l t p
  = (filter (fun e => negb (tag_match t p c e)) l, length (filter (tag_match t p c) l)).
Proof.
  intros Ht c. unfold removeByTag. fold c.
  rewrite (removeByTag_loop_filter t p c Ht) by lia.
  reflexivity.
Qed.

End DescriptorListRemoveFacts.

Module PDSFacts.
Import Descriptor DescriptorList PDSDescriptor.

Lemma GetUInt32_PutUInt32 v : 0 <= v < 2 ^ 32 -> GetUInt32 (PutUInt32 v) = v.
Proof.
  intros Hv. unfold GetUInt32, PutUInt32, u8. cbn [nth].
  rewrite !Z.shiftr_div_pow2 by lia.
  assert (E16 : v / 2 ^ 16 = v / 256 / 256)
    by (rewrite Z.div_div by lia; reflexivity).
  assert (E24 : v / 2 ^ 24 = v / 256 / 256 / 256)
    by (rewrite !Z.div_div by lia; reflexivity).
  change (2 ^ 8) with 256. rewrite E16, E24.
  pose proof (Z.div_mod v 256 ltac:(lia)) as D0.
  pose proof (Z.div_mod (v / 256) 256 ltac:(lia)) as D1.
  pose proof (Z.div_mod (v / 256 / 256) 256 ltac:(lia)) as D2.
  assert (H3 : 0 <= v / 256 / 256 / 256 < 256).
  { rewrite !Z.div_div by lia. split; [apply Z.div_pos; lia|].
    apply Z.div_lt_upper_bound; lia. }
  rewrite (Z.mod_small (v / 256 / 256 / 256)) by lia.
  lia.
Qed.

Lemma serialize_data p :
  _data (serialize (mkPDSDescriptor true p)) = Some ([DID_PRIV_DATA_SPECIF; 4] ++ PutUInt32 p).
Proof. reflexivity. Qed.

(** Round trip: [PrivateDataSpecifierDescriptor::serialize] then
    [deserialize] gives back a valid descriptor with the same 32-bit PDS;
    a descriptor with another tag, or whose payload is not 4 bytes, is
    invalid and leaves [pds] unchanged. *)
Theorem pds_serialize_deserialize (x y : PrivateDataSpecifierDescriptor) (d : Descriptor) :
  (0 <= pds x < 2 ^ 32 -> deserialize y (serialize x) = mkPDSDescriptor true (pds x)) /\
  ((tag d <> DID_PRIV_DATA_SPECIF \/ payloadSize d <> 4) ->
   deserialize y d = mkPDSDescriptor false (pds y)).
Proof.
  split.
  - intros Hp. unfold deserialize. cbv [serialize from_raw size_check].
    cbn [isValid tag payload payloadSize].
    replace (_ && _ && _) with true by reflexivity.
    cbn. unfold isValid, tag, payloadSize, payload. cbn. f_equal.
    exact (GetUInt32_PutUInt32 (pds x) Hp).
  - intros H. unfold deserialize.
    replace (isValid d && (tag d =? DID_PRIV_DATA_SPECIF) && (payloadSize d =? 4)) with false;
      [reflexivity|].
    symmetry. rewrite !andb_false_iff.
    destruct H as [H|H]; [left; right; apply Z.eqb_neq; exact H|].
    right. apply Z.eqb_neq. exact H.
Qed.

(** [DescriptorList::addPrivateDataSpecifier(pds)] with a nonzero 32-bit
    PDS keeps the list as a prefix, adds at most one descriptor, and leaves
    [pds] as the PDS of the last element. *)
Theorem addPrivateDataSpecifier_last (l : list Element) (p : Z) :
  0 < p < 2 ^ 32 ->
  let l' := addPrivateDataSpecifier l p in
  (exists s, l' = l ++ s /\ (length s <= 1)%nat) /\ DescriptorList.pds (last l' dummy) = p.
Proof.
  intros Hp l'.
  assert (Hadd : add_serialized l (PDS_descriptor p)
                 = l ++ [mkElement (PDS_descriptor p) p]).
  { assert (Hv : isValid (PDS_descriptor p) = true) by reflexivity.
    assert (Ht : (tag (PDS_descriptor p) =? DID_PRIV_DATA_SPECIF) = true) by reflexivity.
    assert (Hs : (payloadSize (PDS_descriptor p) <? 4) = false) by reflexivity.
    unfold add_serialized, add. rewrite Hv, Ht. unfold pds_value. rewrite Hs.
    change (payload (PDS_descriptor p)) with (PutUInt32 p).
    rewrite GetUInt32_PutUInt32 by lia. reflexivity. }
  unfold l', addPrivateDataSpecifier.
  replace (negb (p =? 0)) with true by (symmetry; apply negb_true_iff, Z.eqb_neq; lia).
  cbn [andb].
  destruct l as [|e r].
  - rewrite Hadd. split; [eexists; split; [reflexivity|simpl; lia]|].
    rewrite last_last. reflexivity.
  - set (l := e :: r) in *.
    destruct (Z.eqb_spec (DescriptorList.pds (last l dummy)) p) as [Eq|Ne]; cbn [negb].
    + split; [exists []; rewrite app_nil_r; split; [reflexivity|simpl; lia]|]. exact Eq.
    + rewrite Hadd. split; [eexists; split; [reflexivity|simpl; lia]|].
      rewrite last_last. reflexivity.
Qed.

End PDSFacts.

(* ------------------------------------------------------------------------ *)

Module AC3SerializeFacts.
Import Descriptor AC3 AC3Merge.

Lemma u8_eq_small z : 0 <= z < 256 -> u8 z = z.
Proof. intros H. unfold u8. apply Z.mod_small. exact H. Qed.

(** [Descriptor(bbp, SHARE)] on [tag | uint8_t(n) | n bytes]: valid exactly
    when the [n] bytes fit the 8-bit length field. *)
Lemma from_ptr_len t rest :
  from_ptr (Some (t :: u8 (Z.of_nat (length rest)) :: rest)) SHARE
  = mkDescriptor (if (length rest <? 256)%nat
                  then Some (t :: u8 (Z.of_nat (length rest)) :: rest) else None).
Proof.
  unfold from_ptr, size_check. cbn [length nth].
  destruct (Nat.ltb_spec (length rest) 256) as [Hl|Hl].
  - rewrite u8_eq_small by lia.
    replace ((2 <=? Z.of_nat (S (S (length rest))))
             && (Z.of_nat (S (S (length rest))) <? 258)
             && (Z.of_nat (length rest) =? Z.of_nat (S (S (length rest))) - 2)) with true;
      [reflexivity|].
    symmetry. rewrite !andb_true_iff, Z.leb_le, Z.ltb_lt, Z.eqb_eq. lia.
  - replace ((2 <=? Z.of_nat (S (S (length rest))))
             && (Z.of_nat (S (S (length rest))) <? 258)
             && (u8 (Z.of_nat (length rest)) =? Z.of_nat (S (S (length rest))) - 2)) with false;
      [reflexivity|].
    symmetry. rewrite !andb_false_iff, Z.ltb_ge. left. right. lia.
Qed.

Lemma of_nat_SS_sub2 n : Z.of_nat (S (S n)) - 2 = Z.of_nat n.
Proof. lia. Qed.

(** [AC3Descriptor::serialize] writes no length check of its own: the
    descriptor it builds is valid exactly when the flags byte, the set
    optional fields and [additional_info] fit in 255 payload bytes; a
    valid result has tag 0x6A and a payload of that many bytes. *)
Theorem ac3_serialize_valid (a : AC3Descriptor) :
  isValid (serialize a) = (nb_set a + length (additional_info a) <=? 254)%nat /\
  (isValid (serialize a) = true ->
   tag (serialize a) = DID_AC3 /\
   payloadSize (serialize a) = Z.of_nat (1 + nb_set a + length (additional_info a))).
Proof.
  assert (Hlen : forall x, length (x :: append_opt (component_type a) ++ append_opt (bsid a)
                   ++ append_opt (mainid a) ++ append_opt (asvc a) ++ additional_info a)
                 = (1 + nb_set a + length (additional_info a))%nat).
  { intros x. unfold nb_set. cbn [length]. rewrite !length_app. lia. }
  unfold serialize. cbn [app skipn length]. rewrite of_nat_SS_sub2.
  match goal with |- context [from_ptr (Some (DID_AC3 :: u8 (Z.of_nat (S (length ?r))) :: ?x :: ?r)) SHARE] =>
    change (S (length r)) with (length (x :: r)); rewrite (from_ptr_len DID_AC3 (x :: r)), Hlen
  end.
  destruct (Nat.ltb_spec (1 + nb_set a + length (additional_info a)) 256) as [H|H];
    destruct (Nat.leb_spec (nb_set a + length (additional_info a)) 254) as [H'|H']; try lia.
  - split; [reflexivity|]. intros _. split; [reflexivity|].
    unfold payloadSize, payload. cbn [_data skipn]. rewrite Hlen. reflexivity.
  - split; [reflexivity|]. intros E. discriminate E.
Qed.

(** [AC3Descriptor::merge] keeps every optional field that is set and
    fills only the unset ones from the other descriptor (a field of the
    result is set when it is set in either), keeps validity and a nonempty
    [additional_info], and merging again with the same descriptor changes
    nothing. *)
Theorem ac3_merge_props (a b : AC3Descriptor) :
  let m := merge a b in
  _is_valid m = _is_valid a /\
  (set (component_type a) = true -> component_type m = component_type a) /\
  (set (bsid a) = true -> bsid m = bsid a) /\
  (set (mainid a) = true -> mainid m = mainid a) /\
  (set (asvc a) = true -> asvc m = asvc a) /\
  (additional_info a <> [] -> additional_info m = additional_info a) /\
  set (component_type m) = set (component_type a) || set (component_type b) /\
  set (bsid m) = set (bsid a) || set (bsid b) /\
  set (mainid m) = set (mainid a) || set (mainid b) /\
  set (asvc m) = set (asvc a) || set (asvc b) /\
  merge m b = m.
Proof.
  destruct a as [v ct bs mi av ai], b as [v' ct' bs' mi' av' ai'].
  unfold merge, merge_opt. cbn.
  destruct ct, bs, mi, av; cbn; destruct ai; cbn;
    repeat split; try reflexivity; intros; try discriminate; try congruence;
    destruct ct', bs', mi', av', ai'; reflexivity.
Qed.

End AC3SerializeFacts.

Module EITTableIdFacts.
Import EITTableId.

Section Consts.
Variables TID_EIT_PF_ACT TID_EIT_PF_OTH TID_EIT_S_ACT_MIN TID_EIT_S_ACT_MAX
          TID_EIT_S_OTH_MIN : Z.
Variable isPresentFollowing : Z -> bool.
(** The order of the table id values of tsMPEG.h: 0x4E, 0x4F, 0x50..0x5F
    and 0x60..0x6F. *)
Hypothesis Hpf : TID_EIT_PF_ACT <> TID_EIT_PF_OTH.
Hypothesis Hpf_act : TID_EIT_PF_ACT < TID_EIT_S_ACT_MIN.
Hypothesis Hpf_oth : TID_EIT_PF_OTH < TID_EIT_S_ACT_MIN.
Hypothesis Hact : TID_EIT_S_ACT_MIN + 15 <= TID_EIT_S_ACT_MAX.
Hypothesis Hoth : TID_EIT_S_ACT_MAX < TID_EIT_S_OTH_MIN.

Let isActual' := isActual TID_EIT_PF_ACT TID_EIT_S_ACT_MIN TID_EIT_S_ACT_MAX.

Lemma land15_range z : 0 <= Z.land z 15 <= 15.
Proof.
  split; [apply Z.land_nonneg; lia|].
  change 15 with (Z.ones 4) at 1. rewrite (Z.land_ones z 4) by lia.
  pose proof (Z.mod_pos_bound z 16 ltac:(lia)). change (2 ^ 4) with 16. lia.
Qed.


Lemma isActual_act_range t l :
  TID_EIT_S_ACT_MIN <= t <= TID_EIT_S_ACT_MIN + 15 -> isActual' (mkTableIds t l) = true.
Proof.
  intros H. unfold isActual', isActual. cbn [_table_id].
  apply orb_true_iff. right. apply andb_true_iff. rewrite !Z.leb_le. lia.
Qed.

Lemma isActual_oth_range t l :
  TID_EIT_S_OTH_MIN <= t <= TID_EIT_S_OTH_MIN + 15 -> isActual' (mkTableIds t l) = false.
Proof.
  intros H. unfold isActual', isActual. cbn [_table_id].
  apply orb_false_iff. split; [apply Z.eqb_neq; lia|].
  apply andb_false_iff. right. apply Z.leb_gt. lia.
Qed.

Lemma isActual_pf_oth l : isActual' (mkTableIds TID_EIT_PF_OTH l) = false.
Proof.
  unfold isActual', isActual. cbn [_table_id].
  apply orb_false_iff. split; [apply Z.eqb_neq; lia|].
  apply andb_false_iff. left. apply Z.leb_gt. lia.
Qed.

Lemma isActual_pf_act l : isActual' (mkTableIds TID_EIT_PF_ACT l) = true.
Proof. unfold isActual', isActual. cbn [_table_id]. rewrite Z.eqb_refl. reflexivity. Qed.

(** [EIT::isActual] of a table id computed by [EIT::ComputeTableId]
    returns the [is_actual] flag it was computed with, for p/f and
    schedule EITs and every [eits_index]; a schedule table id lies in the
    16 ids of its range. *)
Theorem computeTableId_isActual (is_actual is_pf : bool) (eits_index last : Z) :
  isActual' (mkTableIds (ComputeTableId TID_EIT_PF_ACT TID_EIT_PF_OTH TID_EIT_S_ACT_MIN
                           TID_EIT_S_OTH_MIN is_actual is_pf eits_index) last) = is_actual /\
  (is_pf = false ->
   let base := if is_actual then TID_EIT_S_ACT_MIN else TID_EIT_S_OTH_MIN in
   base <= ComputeTableId TID_EIT_PF_ACT TID_EIT_PF_OTH TID_EIT_S_ACT_MIN
             TID_EIT_S_OTH_MIN is_actual is_pf eits_index <= base + 15).
Proof.
  pose proof (land15_range eits_index).
  unfold ComputeTableId. destruct is_pf, is_actual; split; intros; try discriminate;
    cbn; try lia.
  - apply isActual_pf_act.
  - apply isActual_pf_oth.
  - apply isActual_act_range. lia.
  - apply isActual_oth_range. lia.
Qed.

(** [EIT::setActual(is_actual)] makes [isActual()] return [is_actual].
    On a schedule EIT, [setActual(false)] moves [_table_id] to the
    "other" range but sets [last_table_id] in the "actual" range
    ([TID_EIT_S_ACT_MIN + (last_table_id & 0x0F)]), so the two ids
    disagree on actual/other. *)
Theorem setActual_isActual (t : TableIds) (is_actual : bool) :
  let t' := setActual TID_EIT_PF_ACT TID_EIT_PF_OTH TID_EIT_S_ACT_MIN TID_EIT_S_OTH_MIN
              isPresentFollowing t is_actual in
  isActual' t' = is_actual /\
  (isPresentFollowing (_table_id t) = false ->
   TID_EIT_S_ACT_MIN <= last_table_id t' <= TID_EIT_S_ACT_MIN + 15 /\
   isActual' (mkTableIds (last_table_id t') 0) = true).
Proof.
  pose proof (land15_range (_table_id t)). pose proof (land15_range (last_table_id t)).
  intros t'. unfold t', setActual.
  destruct (isPresentFollowing (_table_id t)) eqn:Epf.
  - split; [|intros; discriminate].
    destruct is_actual; [apply isActual_pf_act|apply isActual_pf_oth].
  - destruct is_actual; cbn [_table_id last_table_id]; split.
    + apply isActual_act_range. lia.
    + intros _. split; [lia|]. apply isActual_act_range. lia.
    + apply isActual_oth_range. lia.
    + intros _. split; [lia|]. apply isActual_act_range. lia.
Qed.

End Consts.

End EITTableIdFacts.

(* ------------------------------------------------------------------------ *)

Module EITSectionFacts.
Import EIT.

Section WithFixed.
Variable fixed : ByteBlock.
Hypothesis Hfixed : length fixed = 6%nat.

(** The invariant of the serialisation state: the sections are numbered
    [0 .. section_number - 1] in order, and the payload being built and
    every section payload start with the 6 fixed bytes. *)
Definition sec_inv (st : State) : Prop :=
  map fst (sections st) = seq 0 (section_number st) /\
  firstn 6 (data st) = fixed /\
  Forall (fun p => firstn 6 (snd p) = fixed) (sections st).

Lemma firstn_6_app d x : firstn 6 d = fixed -> firstn 6 (d ++ x) = fixed.
Proof.
  intros H. assert (Hl : (6 <= length d)%nat).
  { pose proof (length_firstn 6 d) as L. rewrite H, Hfixed in L. lia. }
  rewrite firstn_app. replace (6 - length d)%nat with O by lia.
  rewrite firstn_O, app_nil_r. exact H.
Qed.

Lemma addSection_sec_inv st : sec_inv st -> sec_inv (addSection st).
Proof.
  intros [H1 [H2 H3]]. unfold addSection. split; [|split]; cbn [sections data section_number].
  - rewrite map_app, H1, seq_S. reflexivity.
  - rewrite firstn_firstn, Nat.min_id. exact H2.
  - apply Forall_app. split; [exact H3|]. constructor; [exact H2|constructor].
Qed.

Lemma cond_addSection_sec_inv (c : bool) st :
  sec_inv st -> sec_inv (if c then addSection st else st).
Proof. destruct c; [apply addSection_sec_inv|exact id]. Qed.

Lemma event_step_sec_inv ev starting i st :
  sec_inv st -> sec_inv (fst (event_step ev starting i st)).
Proof.
  intros H. unfold event_step.
  pose proof (cond_addSection_sec_inv
                (starting && (remain st <? 12 + binarySize (descs ev))%nat) st H) as H1.
  revert H1.
  generalize (if starting && (remain st <? 12 + binarySize (descs ev))%nat
              then addSection st else st). intros st1 H1.
  destruct (lengthSerialize (descs ev) (remain st1 - 10) i) as [[[field b] rem] start'].
  cbn [fst]. apply cond_addSection_sec_inv.
  destruct H1 as [A [B C]]. split; [|split]; cbn [sections data section_number].
  - exact A.
  - apply firstn_6_app. exact B.
  - exact C.
Qed.

Lemma event_loop_sec_inv fuel : forall ev starting i st,
  sec_inv st -> sec_inv (event_loop fuel ev starting i st).
Proof.
  induction fuel as [|f IH]; intros ev starting i st H; cbn [event_loop]; [exact H|].
  destruct (_ || _); [|exact H].
  pose proof (event_step_sec_inv ev starting i st H) as E.
  destruct (event_step ev starting i st) as [st3 start']. apply IH. exact E.
Qed.

Lemma fold_add_event_sec_inv evs : forall st,
  sec_inv st -> sec_inv (fold_left add_event evs st).
Proof.
  induction evs as [|ev r IH]; intros st H; cbn [fold_left]; [exact H|].
  apply IH. unfold add_event. apply event_loop_sec_inv.
  apply cond_addSection_sec_inv. exact H.
Qed.

End WithFixed.

Lemma fixed_length t :
  length (PutUInt16 (ts_id t) ++ PutUInt16 (onetw_id t) ++ [segment_last t; last_table_id t])
  = 6%nat.
Proof. reflexivity. Qed.

(** [EIT::serialize] of a valid EIT produces at least one section; the
    sections are numbered 0, 1, 2, ... in the order they are added (the
    counter [section_number], before its [uint8_t] cast), and the payload
    of every section starts with the same 6 bytes: ts_id, onetw_id,
    segment_last and last_table_id. An EIT without events gives one
    section holding only these 6 bytes; an invalid EIT gives no section. *)
Theorem eit_serialize_sections (MAX : nat) (t : EIT) :
  let fixed := PutUInt16 (ts_id t) ++ PutUInt16 (onetw_id t)
               ++ [segment_last t; last_table_id t] in
  let secs := serialize MAX t in
  (_is_valid t = false -> secs = []) /\
  (_is_valid t = true ->
   secs <> [] /\
   map fst secs = seq 0 (length secs) /\
   Forall (fun p => firstn 6 (snd p) = fixed) secs /\
   (events t = [] -> secs = [(O, fixed)])).
Proof.
  intros fixed secs. unfold secs, serialize.
  destruct (_is_valid t); cbn [negb]; split; intros Hv; try discriminate; [|reflexivity].
  fold fixed.
  set (st0 := mkState [] fixed (MAX - 6) O).
  assert (H0 : sec_inv fixed st0).
  { split; [reflexivity|]. split; [|constructor]. reflexivity. }
  pose proof (fold_add_event_sec_inv fixed (fixed_length t) (events t) st0 H0) as Hst.
  set (st := fold_left add_event (events t) st0) in *.
  assert (Hlen : forall s, sec_inv fixed s ->
            length (map fst (sections s)) = section_number s).
  { intros s [A _]. rewrite A, length_seq. reflexivity. }
  assert (Hgood : forall s, sec_inv fixed s ->
            map fst (sections s) = seq 0 (length (sections s)) /\
            Forall (fun p => firstn 6 (snd p) = fixed) (sections s)).
  { intros s Hs. pose proof (Hlen s Hs) as L. rewrite length_map in L.
    destruct Hs as [A [_ C]]. rewrite L. split; assumption. }
  split; [|split; [|split]].
  - unfold addSection. destruct (sections st) as [|x r] eqn:E.
    + rewrite orb_true_r. cbn [sections]. destruct (sections st); discriminate.
    + destruct (6 <? length (data st))%nat; cbn [orb sections]; discriminate.
  - destruct ((6 <? length (data st))%nat || match sections st with [] => true | _ => false end);
      apply Hgood; [apply addSection_sec_inv|]; exact Hst.
  - destruct ((6 <? length (data st))%nat || match sections st with [] => true | _ => false end);
      apply Hgood; [apply addSection_sec_inv|]; exact Hst.
  - intros He. unfold st. rewrite He. cbn [fold_left]. reflexivity.
Qed.

End EITSectionFacts.

(* ------------------------------------------------------------------------ *)

Module ClearFilterRunFacts.
Import ClearFilter.

Lemma run_app br ps1 : forall st ps2,
  run br st (ps1 ++ ps2) = run br st ps1 ++ run br (states br st ps1) ps2.
Proof.
  induction ps1 as [|p r IH]; intros st ps2; [reflexivity|].
  cbn [app run]. destruct (processPacket br st p) as [st' s] eqn:E.
  rewrite IH. unfold states. cbn [fold_left]. rewrite E. reflexivity.
Qed.

Lemma length_run br ps : forall st, length (run br st ps) = length ps.
Proof.
  induction ps as [|p r IH]; intros st; [reflexivity|].
  cbn [run]. destruct (processPacket br st p) as [st' s]. cbn [length]. rewrite IH. reflexivity.
Qed.

Lemma run_aborted br ps : forall st,
  _abort st = true -> run br st ps = repeat TSP_END (length ps).
Proof.
  induction ps as [|p r IH]; intros st Ha; [reflexivity|].
  cbn [run]. unfold processPacket at 1. rewrite Ha. cbn [orb].
  cbn [length repeat]. f_equal. apply IH. reflexivity.
Qed.

(** The state of a run in which the bitrate is too low to compute the
    hold-off. *)
Lemma run_no_drop_after br ps : forall st,
  (br / (PKT_SIZE * 8) = 0)%nat -> _drop_after st = O ->
  run br st ps = repeat TSP_END (length ps).
Proof.
  induction ps as [|p r IH]; intros st Hbr Hd; [reflexivity|].
  cbn [run length repeat]. unfold processPacket at 1.
  destruct (_abort st || demux_abort p) eqn:Ea.
  - f_equal. apply IH; [exact Hbr|exact Hd].
  - rewrite Hd. cbn [Nat.eqb]. rewrite Hbr.
    destruct (if clear_monitored p then (true, _current_pkt st)
              else (_pass_packets st, _last_clear_pkt st)) as [pass lc].
    cbn [Nat.eqb]. f_equal. apply IH; [exact Hbr|reflexivity].
Qed.

(** The state of a run in which every packet is dropped. *)
Lemma run_dropping br ps : forall st,
  _abort st = false -> _pass_packets st = false ->
  (_drop_after st <> O \/ (br / (PKT_SIZE * 8) <> 0)%nat) ->
  Forall (fun p => clear_monitored p = false /\ demux_abort p = false) ps ->
  run br st ps = repeat (_drop_status st) (length ps).
Proof.
  induction ps as [|p r IH]; intros st Ha Hp Hd Hps; [reflexivity|].
  inversion Hps as [|q r' [Hc Hab] Hr]; subst.
  cbn [run length repeat]. unfold processPacket at 1.
  rewrite Ha, Hab, Hc. cbn [orb].
  set (d := if Nat.eqb (_drop_after st) 0 then (br / (PKT_SIZE * 8))%nat else _drop_after st).
  assert (Hd' : d <> O).
  { unfold d. destruct (Nat.eqb_spec (_drop_after st) 0); lia. }
  cbv beta iota zeta. fold d.
  replace (Nat.eqb d 0) with false by (symmetry; apply Nat.eqb_neq; exact Hd').
  rewrite Hp. cbn [andb].
  rewrite IH; [reflexivity|reflexivity|reflexivity| |exact Hr].
  left. exact Hd'.
Qed.

(** Once [_abort] is set by an error in the demux, the plugin returns
    [TSP_END] for the packet that caused it and for every later packet,
    whatever their content. *)
Theorem clear_abort_sticky (br : nat) (st : ClearState) (ps1 : list Packet) (p : Packet)
    (ps2 : list Packet) :
  demux_abort p = true ->
  skipn (length ps1) (run br st (ps1 ++ p :: ps2)) = repeat TSP_END (S (length ps2)).
Proof.
  intros Hp. rewrite run_app, skipn_app, length_run, Nat.sub_diag.
  rewrite skipn_all2 by (rewrite length_run; lia).
  cbn [app skipn run]. unfold processPacket at 1. rewrite Hp, orb_true_r.
  cbn [repeat]. f_equal. apply run_aborted. reflexivity.
Qed.

(** As long as no clear packet of a monitored PID has been seen, every
    packet is dropped, or replaced by a null packet with --stuffing, when
    the hold-off is known (--drop-after-packets nonzero or a bitrate of at
    least one 188-byte packet per second) and the demux reports no
    error. *)
Theorem clear_drop_until_first_clear (br : nat) (stuffing : bool) (D : nat)
    (ps : list Packet) :
  (D <> O \/ (PKT_SIZE * 8 <= br)%nat) ->
  Forall (fun p => clear_monitored p = false /\ demux_abort p = false) ps ->
  run br (start stuffing D) ps = repeat (if stuffing then TSP_NULL else TSP_DROP) (length ps).
Proof.
  intros HD Hps. apply (run_dropping br ps (start stuffing D)); try reflexivity; [|exact Hps].
  cbn [_drop_after start]. destruct HD as [HD|HD]; [left; exact HD|right].
  intros E. apply Nat.div_small_iff in E; [lia|]. cbv. discriminate.
Qed.

(** Without --drop-after-packets, a bitrate below one 188-byte packet
    per second makes every packet end the processing ([TSP_END]). *)
Theorem clear_low_bitrate_end (br : nat) (stuffing : bool) (ps : list Packet) :
  (br < PKT_SIZE * 8)%nat ->
  run br (start stuffing 0) ps = repeat TSP_END (length ps).
Proof.
  intros Hbr. apply run_no_drop_after; [|reflexivity].
  apply Nat.div_small. exact Hbr.
Qed.

Definition with_drop_after (st : ClearState) (k : nat) : ClearState :=
  mkClearState (_abort st) (_pass_packets st) k (_current_pkt st) (_last_clear_pkt st)
               (_drop_status st).

Lemma run_default_drop_after br ps : forall st,
  _drop_after st = O -> (br / (PKT_SIZE * 8) <> 0)%nat ->
  run br st ps = run br (with_drop_after st (br / (PKT_SIZE * 8))) ps.
Proof.
  induction ps as [|p r IH]; intros st Hd Hk; [reflexivity|].
  cbn [run]. unfold processPacket at 1 2. cbn [_abort _pass_packets _drop_after _current_pkt
    _last_clear_pkt _drop_status with_drop_after].
  destruct (_abort st || demux_abort p) eqn:Ea.
  - f_equal. apply IH; [exact Hd|exact Hk].
  - assert (E : Nat.eqb (br / (PKT_SIZE * 8)) 0 = false) by (apply Nat.eqb_neq; exact Hk).
    rewrite Hd, E. reflexivity.
Qed.

(** Without --drop-after-packets ([_drop_after] 0 at start), the plugin
    behaves, at a constant bitrate of at least one 188-byte packet per
    second, exactly as with --drop-after-packets set to the number of
    packets in one second, [bitrate / (PKT_SIZE * 8)]. *)
Theorem clear_default_drop_after (br : nat) (stuffing : bool) (ps : list Packet) :
  (PKT_SIZE * 8 <= br)%nat ->
  run br (start stuffing 0) ps = run br (start stuffing (br / (PKT_SIZE * 8))) ps.
Proof.
  intros Hbr. apply run_default_drop_after; [reflexivity|].
  intros E. apply Nat.div_small_iff in E; [lia|]. cbv. discriminate.
Qed.

End ClearFilterRunFacts.

(* ------------------------------------------------------------------------ *)

Module PCRVerifyRunFacts.
Import PCRVerify.

(** State after the given packets. *)
Definition states (cfg : Config) (st : State) (ps : list TSPacket) : State :=
  fold_left (fun s p => fst (processPacket cfg s p)) ps st.












End PCRVerifyRunFacts.

(* ------------------------------------------------------------------------ *)

Module LengthSerializeFacts.
Import EIT.

(** [DescriptorList::lengthSerialize(addr, size, start)], with room for
    its 2-byte length field and at most 4095 bytes of descriptors, writes
    the length field [0xF000 | length] (4 reserved bits set to 1, then the
    12-bit number of descriptor bytes written), followed by the contents
    of the descriptors from [start] up to the index returned; the room
    left, the bytes written and the length field add up to [size]. *)
Theorem lengthSerialize_spec (ds : list ByteBlock) (size start : nat) :
  (2 <= size)%nat -> (size <= 4097)%nat ->
  let '(field, b, s, i) := lengthSerialize ds size start in
  field = [240 + Z.of_nat (length b) / 256; Z.of_nat (length b) mod 256] /\
  GetUInt16 field = 61440 + Z.of_nat (length b) /\
  (start <= i)%nat /\
  b = concat (firstn (i - start) (skipn start ds)) /\
  (length b + s + 2 = size)%nat.
Proof.
  intros H2 H4. unfold lengthSerialize.
  pose proof (DescriptorListOpsFacts.dl_serialize_spec (skipn start ds) (size - 2)) as H.
  destruct (dl_serialize (skipn start ds) (size - 2)) as [[b s] n].
  destruct H as [_ [Hb [Hl _]]].
  assert (HL : 0 <= Z.of_nat (length b) < 4096) by lia.
  destruct (EITFlagsFacts.length_field_spec _ HL) as [F1 F2].
  assert (Hf : PutUInt16 (Z.lor (Z.of_nat (length b)) 61440)
               = [240 + Z.of_nat (length b) / 256; Z.of_nat (length b) mod 256]).
  { unfold PutUInt16. rewrite F1, F2. reflexivity. }
  rewrite Hf. split; [reflexivity|]. split.
  - unfold GetUInt16. cbn [nth].
    pose proof (Z.div_mod (Z.of_nat (length b)) 256 ltac:(lia)). lia.
  - split; [lia|]. split; [|lia].
    replace (start + n - start)%nat with n by lia. exact Hb.
Qed.

End LengthSerializeFacts.

(* ------------------------------------------------------------------------ *)

Module EITSizeFacts.
Import EIT.

Section WithMax.
Variable MAX : nat.
Hypothesis HMAX : (18 <= MAX)%nat.

(** The payload being built and the room left always add up to the size
    of the payload buffer, and every section added fits in it. *)
Definition size_inv (st : State) : Prop :=
  (length (data st) + remain st = MAX)%nat /\ (6 <= length (data st))%nat /\
  Forall (fun p => (length (snd p) <= MAX)%nat) (sections st).

Lemma addSection_size_inv st :
  size_inv st -> size_inv (addSection st) /\ remain (addSection st) = (MAX - 6)%nat.
Proof.
  intros [H1 [H2 H3]]. unfold addSection, size_inv; cbn [sections data remain].
  rewrite length_firstn. split; [split; [lia|split; [lia|]]|lia].
  apply Forall_app. split; [exact H3|]. constructor; [cbn [snd]; lia|constructor].
Qed.

Lemma lengthSerialize_length ds size start :
  let '(field, b, s, i) := lengthSerialize ds size start in
  length field = 2%nat /\ (length b + s = size - 2)%nat.
Proof.
  unfold lengthSerialize.
  pose proof (DescriptorListOpsFacts.dl_serialize_spec (skipn start ds) (size - 2)) as H.
  destruct (dl_serialize (skipn start ds) (size - 2)) as [[b s] n].
  destruct H as [_ [_ [H _]]]. split; [reflexivity|exact H].
Qed.

(** One step, when at least 12 bytes are left after the section change. *)
Lemma event_step_size_inv ev starting i st :
  size_inv st ->
  (starting = true \/ remain st = (MAX - 6)%nat) ->
  let '(st', start') := event_step ev starting i st in
  size_inv st' /\ ((start' < length (descs ev))%nat -> remain st' = (MAX - 6)%nat).
Proof.
  intros H Hs. unfold event_step.
  set (c := starting && (remain st <? 12 + binarySize (descs ev))%nat).
  assert (H1 : size_inv (if c then addSection st else st) /\
               (12 <= remain (if c then addSection st else st))%nat).
  { destruct c eqn:Ec.
    - destruct (addSection_size_inv st H) as [A B]. split; [exact A|lia].
    - split; [exact H|]. unfold c in Ec. destruct Hs as [->|Hs].
      + cbn [andb] in Ec. apply Nat.ltb_ge in Ec. lia.
      + lia. }
  revert H1. generalize (if c then addSection st else st). intros st1 [H1 Hr].
  pose proof (lengthSerialize_length (descs ev) (remain st1 - 10) i) as HL.
  destruct (lengthSerialize (descs ev) (remain st1 - 10) i) as [[[field b] rem] start'].
  destruct HL as [Hf Hb].
  assert (H2 : size_inv (mkState (sections st1) (data st1 ++ event_entry ev field b)
                                 rem (section_number st1))).
  { destruct H1 as [A [B C]]. unfold size_inv; cbn [sections data remain].
    rewrite length_app, EITFacts.event_entry_length. split; [lia|split; [lia|exact C]]. }
  destruct (Nat.ltb_spec start' (length (descs ev))).
  - destruct (addSection_size_inv _ H2) as [A B]. split; [exact A|intros _; exact B].
  - split; [exact H2|lia].
Qed.

Lemma event_loop_size_inv fuel : forall ev starting i st,
  size_inv st ->
  (starting = true \/ remain st = (MAX - 6)%nat \/ (length (descs ev) <= i)%nat) ->
  size_inv (event_loop fuel ev starting i st).
Proof.
  induction fuel as [|f IH]; intros ev starting i st H Hs; cbn [event_loop]; [exact H|].
  destruct (starting || (i <? length (descs ev))%nat) eqn:Ec; [|exact H].
  assert (Hs' : starting = true \/ remain st = (MAX - 6)%nat).
  { destruct Hs as [Hs|[Hs|Hs]]; [left|right|]; auto.
    destruct starting; [left; reflexivity|].
    cbn [orb] in Ec. apply Nat.ltb_lt in Ec. lia. }
  pose proof (event_step_size_inv ev starting i st H Hs') as E.
  destruct (event_step ev starting i st) as [st3 start'].
  destruct E as [E1 E2]. apply IH; [exact E1|].
  destruct (Nat.ltb_spec start' (length (descs ev))); [right; left; auto|right; right; lia].
Qed.

Lemma fold_add_event_size_inv evs : forall st,
  size_inv st -> size_inv (fold_left add_event evs st).
Proof.
  induction evs as [|ev r IH]; intros st H; cbn [fold_left]; [exact H|].
  apply IH. unfold add_event. apply event_loop_size_inv; [|left; reflexivity].
  destruct (remain st <? 12)%nat; [apply addSection_size_inv|]; exact H.
Qed.

End WithMax.

(** [EIT::serialize] never writes past its payload buffer of
    [MAX_PSI_LONG_SECTION_PAYLOAD_SIZE] bytes (at least 18): the room
    [remain] never runs below what is written (at least 12 bytes are left
    before each event header), and every section payload it produces is
    at most that size, for every EIT, events and descriptor lists of any
    size included. *)
Theorem eit_section_size (MAX : nat) (t : EIT) :
  (18 <= MAX)%nat ->
  Forall (fun p => (length (snd p) <= MAX)%nat) (serialize MAX t).
Proof.
  intros HM. unfold serialize. destruct (_is_valid t); cbn [negb]; [|constructor].
  set (st0 := mkState [] (PutUInt16 (ts_id t) ++ PutUInt16 (onetw_id t)
                           ++ [segment_last t; last_table_id t]) (MAX - 6) O).
  assert (H0 : size_inv MAX st0).
  { unfold size_inv. cbn [data remain sections st0]. rewrite !length_app.
    cbn [length PutUInt16]. split; [lia|split; [lia|constructor]]. }
  pose proof (fold_add_event_size_inv MAX HM (events t) st0 H0) as H.
  destruct (_ || _); [|exact (proj2 (proj2 H))].
  exact (proj2 (proj2 (proj1 (addSection_size_inv MAX HM _ H)))).
Qed.

End EITSizeFacts.

(* ------------------------------------------------------------------------ *)

Module RemoveByIndexFacts.
Import Descriptor DescriptorList DescriptorListRemoveFacts.

Lemma map_desc_set_pds k v : forall r, map desc (set_pds k v r) = map desc r.
Proof.
  induction k as [|k IH]; intros [|e r]; cbn [set_pds map desc]; try reflexivity.
  rewrite IH. reflexivity.
Qed.

Lemma prepareRemovePDS_desc l i l' :
  prepareRemovePDS l i = Some l' -> map desc l' = map desc l.
Proof.
  unfold prepareRemovePDS. destruct (nth_error l i); [|discriminate].
  destruct (negb _); [discriminate|]. destruct (search_end _); [|discriminate].
  intros E. injection E as <-. rewrite map_app, map_desc_set_pds, <- map_app.
  change (map desc (firstn (S i) l ++ skipn (S i) l) = map desc l). rewrite firstn_skipn.
  reflexivity.
Qed.

Lemma search_end_none rest : forall j,
  (j < length rest)%nat -> 128 <= tag (desc (nth j rest dummy)) ->
  (forall k, (k < j)%nat ->
   tag (desc (nth k rest dummy)) < 128 /\ tag (desc (nth k rest dummy)) <> DID_PRIV_DATA_SPECIF) ->
  search_end rest = None.
Proof.
  induction rest as [|e r IH]; intros j Hj Ht Hk; cbn [length] in Hj; [lia|].
  cbn [search_end]. destruct j as [|j].
  - cbn [nth] in Ht. apply Z.leb_le in Ht. rewrite Ht. reflexivity.
  - destruct (Hk O ltac:(lia)) as [A B]. cbn [nth] in A, B.
    apply Z.leb_gt in A. apply Z.eqb_neq in B. rewrite A, B.
    rewrite (IH j); [reflexivity|lia|exact Ht|].
    intros k Hk'. exact (Hk (S k) ltac:(lia)).
Qed.

Lemma search_end_some rest :
  (forall j, (j < length rest)%nat -> 128 <= tag (desc (nth j rest dummy)) ->
   exists k, (k < j)%nat /\ tag (desc (nth k rest dummy)) = DID_PRIV_DATA_SPECIF) ->
  search_end rest <> None.
Proof.
  induction rest as [|e r IH]; intros H; cbn [search_end]; [discriminate|].
  destruct (Z.leb_spec 128 (tag (desc e))) as [Ht|Ht].
  - destruct (H O ltac:(cbn; lia) Ht) as [k [Hk _]]. lia.
  - destruct (Z.eqb_spec (tag (desc e)) DID_PRIV_DATA_SPECIF) as [Hp|Hp]; [discriminate|].
    assert (Hr : search_end r <> None).
    { apply IH. intros j Hj Htj.
      destruct (H (S j) ltac:(cbn; lia) Htj) as [[|k] [Hk Hk']]; cbn [nth] in Hk'.
      - contradiction.
      - exists k. split; [lia|exact Hk']. }
    destruct (search_end r); [discriminate|contradiction].
Qed.

(** [DescriptorList::removeByIndex(index)] fails and leaves the list
    alone for an index out of range; it removes any descriptor other than
    a private_data_specifier_descriptor. It refuses to remove a
    private_data_specifier_descriptor on which a private descriptor
    (tag >= 0x80) depends (one comes after it before any other
    private_data_specifier_descriptor), and removes it otherwise. When it
    succeeds, the other descriptors stay in their order. *)
Theorem removeByIndex_spec (l : list Element) (i : nat) :
  ((length l <= i)%nat -> removeByIndex l i = (l, false)) /\
  (forall e, nth_error l i = Some e -> tag (desc e) <> DID_PRIV_DATA_SPECIF ->
   removeByIndex l i = (firstn i l ++ skipn (S i) l, true)) /\
  (forall e j, nth_error l i = Some e -> tag (desc e) = DID_PRIV_DATA_SPECIF ->
   (i < j < length l)%nat -> 128 <= tag (desc (nth j l dummy)) ->
   (forall k, (i < k < j)%nat ->
    tag (desc (nth k l dummy)) < 128 /\ tag (desc (nth k l dummy)) <> DID_PRIV_DATA_SPECIF) ->
   removeByIndex l i = (l, false)) /\
  (forall e, nth_error l i = Some e -> tag (desc e) = DID_PRIV_DATA_SPECIF ->
   (forall j, (i < j < length l)%nat -> 128 <= tag (desc (nth j l dummy)) ->
    exists k, (i < k < j)%nat /\ tag (desc (nth k l dummy)) = DID_PRIV_DATA_SPECIF) ->
   snd (removeByIndex l i) = true) /\
  (snd (removeByIndex l i) = true ->
   map desc (fst (removeByIndex l i)) = map desc (firstn i l ++ skipn (S i) l)).
Proof.
  unfold removeByIndex. split; [|split; [|split; [|split]]].
  - intros H. apply nth_error_None in H. rewrite H. reflexivity.
  - intros e He Ht. rewrite He. apply Z.eqb_neq in Ht. rewrite Ht.
    rewrite erase_split; [reflexivity|]. apply nth_error_Some. rewrite He. discriminate.
  - intros e j He Ht Hj Htj Hk. rewrite He. rewrite (proj2 (Z.eqb_eq _ _) Ht).
    unfold prepareRemovePDS. rewrite He, (proj2 (Z.eqb_eq _ _) Ht). cbn [negb].
    rewrite (search_end_none (skipn (S i) l) (j - S i)); [reflexivity| | |].
    + rewrite length_skipn. lia.
    + rewrite nth_skipn. replace (S i + (j - S i))%nat with j by lia. exact Htj.
    + intros k Hk'. rewrite nth_skipn. apply Hk. lia.
  - intros e He Ht Hc. rewrite He. rewrite (proj2 (Z.eqb_eq _ _) Ht).
    unfold prepareRemovePDS. rewrite He, (proj2 (Z.eqb_eq _ _) Ht). cbn [negb].
    assert (Hs : search_end (skipn (S i) l) <> None).
    { apply search_end_some. intros j Hj Htj. rewrite length_skipn in Hj.
      rewrite nth_skipn in Htj. destruct (Hc (S i + j)%nat ltac:(lia) Htj) as [k [Hk Hk']].
      exists (k - S i)%nat. split; [lia|]. rewrite nth_skipn.
      replace (S i + (k - S i))%nat with k by lia. exact Hk'. }
    destruct (search_end (skipn (S i) l)); [reflexivity|contradiction].
  - destruct (nth_error l i) as [e|] eqn:He; [|cbn [snd]; discriminate].
    assert (Hi : (i < length l)%nat) by (apply nth_error_Some; rewrite He; discriminate).
    destruct (tag (desc e) =? DID_PRIV_DATA_SPECIF).
    + destruct (prepareRemovePDS l i) as [l'|] eqn:Ep; [|cbn [snd]; discriminate].
      intros _. cbn [fst]. pose proof (prepareRemovePDS_desc l i l' Ep) as Hm.
      assert (Hl : length l' = length l)
        by (rewrite <- (length_map desc l'), Hm, length_map; reflexivity).
      rewrite erase_split by lia.
      rewrite !map_app, <- !firstn_map, <- !skipn_map, Hm. reflexivity.
    + intros _. cbn [fst]. rewrite erase_split by exact Hi. reflexivity.
Qed.

End RemoveByIndexFacts.

(* ------------------------------------------------------------------------ *)

Module ExtraExamples.

Module DLEx.
Import Descriptor DescriptorList DescriptorListOps DescriptorListOpsFacts.

Definition ex_list : list Element :=
  [mkElement (mkDescriptor (Some [72; 2; 1; 2])) 0;
   mkElement (mkDescriptor (Some [95; 4; 0; 0; 0; 40])) 40;
   mkElement (mkDescriptor (Some [131; 1; 9])) 40].

Lemma serialize_add_roundtrip_witness :
  Forall (fun e => well_formed (desc e)) ex_list /\ (binarySize ex_list <= 20)%nat /\
  (let '(b, s, i) := serialize ex_list 20 0 in
   i = length ex_list /\ map desc (add_memory (length b) [] b) = map desc ex_list).
Proof.
  assert (Hw : Forall (fun e => well_formed (desc e)) ex_list).
  { repeat constructor; eexists; split; reflexivity. }
  assert (Hs : (binarySize ex_list <= 20)%nat) by (vm_compute; lia).
  split; [exact Hw|]. split; [exact Hs|].
  exact (serialize_add_roundtrip ex_list 20 Hw Hs).
Defined.

End DLEx.

Module RemoveEx.
Import Descriptor DescriptorList DescriptorListRemoveFacts.

Lemma removeByTag_filter_witness :
  131 <> DID_PRIV_DATA_SPECIF /\
  removeByTag DLEx.ex_list 131 40
  = (filter (fun e => negb (tag_match 131 40 (negb (40 =? 0) && (128 <=? 131)) e)) DLEx.ex_list,
     length (filter (tag_match 131 40 (negb (40 =? 0) && (128 <=? 131))) DLEx.ex_list)).
Proof.
  assert (H : 131 <> DID_PRIV_DATA_SPECIF) by (unfold DID_PRIV_DATA_SPECIF; lia).
  split; [exact H|].
  exact (removeByTag_filter DLEx.ex_list 131 40 H).
Defined.

End RemoveEx.

Module PDSEx.
Import Descriptor DescriptorList PDSFacts.

Lemma addPrivateDataSpecifier_last_witness :
  0 < 40 < 2 ^ 32 /\
  (exists s, addPrivateDataSpecifier DLEx.ex_list 41 = DLEx.ex_list ++ s /\ (length s <= 1)%nat) /\
  DescriptorList.pds (last (addPrivateDataSpecifier DLEx.ex_list 41) dummy) = 41.
Proof.
  split; [lia|].
  apply (addPrivateDataSpecifier_last DLEx.ex_list 41). lia.
Defined.

End PDSEx.

Module TableIdEx.
Import EITTableId EITTableIdFacts.

Definition isPF (tid : Z) : bool := (tid =? 78) || (tid =? 79).

Lemma computeTableId_isActual_witness :
  (78 <> 79 /\ 78 < 80 /\ 79 < 80 /\ 80 + 15 <= 95 /\ 95 < 96) /\
  isActual 78 80 95 (mkTableIds (ComputeTableId 78 79 80 96 false false 19) 0) = false /\
  (false = false ->
   80 <= ComputeTableId 78 79 80 96 true false 19 <= 80 + 15).
Proof.
  split; [lia|]. split.
  - apply (computeTableId_isActual 78 79 80 95 96); lia.
  - pose proof (computeTableId_isActual 78 79 80 95 96 ltac:(lia) ltac:(lia) ltac:(lia)
                  ltac:(lia) ltac:(lia) true false 19 0) as [_ H].
    exact H.
Defined.

Lemma setActual_isActual_witness :
  (78 <> 79 /\ 78 < 80 /\ 79 < 80 /\ 80 + 15 <= 95 /\ 95 < 96) /\
  let t' := setActual 78 79 80 96 isPF (mkTableIds 83 85) false in
  isActual 78 80 95 t' = false /\
  (isPF 83 = false ->
   80 <= last_table_id t' <= 80 + 15 /\ isActual 78 80 95 (mkTableIds (last_table_id t') 0) = true).
Proof.
  split; [lia|].
  apply (setActual_isActual 78 79 80 95 96 isPF); lia.
Defined.

End TableIdEx.

Module ClearEx.
Import ClearFilter ClearFilterRunFacts.
Local Open Scope nat_scope.

Definition clear_pkt : Packet := mkPacket true false.
Definition scrambled_pkt : Packet := mkPacket false false.
Definition abort_pkt : Packet := mkPacket false true.

Lemma clear_abort_sticky_witness :
  demux_abort abort_pkt = true /\
  skipn (length [clear_pkt; scrambled_pkt])
        (run 3008 (start false 2) ([clear_pkt; scrambled_pkt] ++ abort_pkt :: [clear_pkt]))
  = repeat TSP_END (S (length [clear_pkt])).
Proof.
  split; [reflexivity|].
  apply clear_abort_sticky. reflexivity.
Defined.

Lemma clear_drop_until_first_clear_witness :
  (2 <> O \/ (PKT_SIZE * 8 <= 0)%nat) /\
  Forall (fun p => clear_monitored p = false /\ demux_abort p = false)
         [scrambled_pkt; scrambled_pkt] /\
  run 0 (start true 2) [scrambled_pkt; scrambled_pkt]
  = repeat (if true then TSP_NULL else TSP_DROP) (length [scrambled_pkt; scrambled_pkt]).
Proof.
  assert (H1 : (2 <> O \/ (PKT_SIZE * 8 <= 0)%nat)) by (left; discriminate).
  assert (H2 : Forall (fun p => clear_monitored p = false /\ demux_abort p = false)
                      [scrambled_pkt; scrambled_pkt]) by (repeat constructor).
  split; [exact H1|]. split; [exact H2|].
  exact (clear_drop_until_first_clear 0 true 2 _ H1 H2).
Defined.

Lemma clear_low_bitrate_end_witness :
  (1000 < PKT_SIZE * 8)%nat /\
  run 1000 (start false 0) [clear_pkt; scrambled_pkt]
  = repeat TSP_END (length [clear_pkt; scrambled_pkt]).
Proof.
  assert (H : (1000 < PKT_SIZE * 8)%nat) by (cbv; lia).
  split; [exact H|]. exact (clear_low_bitrate_end 1000 false _ H).
Defined.

Lemma clear_default_drop_after_witness :
  (PKT_SIZE * 8 <= 3008)%nat /\
  run 3008 (start false 0) [clear_pkt; scrambled_pkt; scrambled_pkt; scrambled_pkt]
  = run 3008 (start false (3008 / (PKT_SIZE * 8)))
        [clear_pkt; scrambled_pkt; scrambled_pkt; scrambled_pkt].
Proof.
  assert (H : (PKT_SIZE * 8 <= 3008)%nat) by (cbv; lia).
  split; [exact H|]. exact (clear_default_drop_after 3008 false _ H).
Defined.

End ClearEx.

Module PCRVerifyEx.
Import PCRVerify PCRVerifyRunFacts.

Definition cfg : Config := mkConfig (fun pid => pid =? 100) 0 1000000.

Definition pkts : list TSPacket :=
  [mkTSPacket 100 (Some 1000000); mkTSPacket 200 (Some 5); mkTSPacket 100 None;
   mkTSPacket 100 (Some 1100000)].


End PCRVerifyEx.

Module EITEx.
Import EIT.

Definition ex_event : Event :=
  mkEvent 7 0 5400 4 true [[72; 3; 1; 2; 3]; [77; 2; 9; 9]; [84; 1; 0]].

Definition ex_eit : EIT := mkEIT true 1 2 0 78 [ex_event; ex_event].

Lemma lengthSerialize_spec_witness :
  (2 <= 9)%nat /\ (9 <= 4097)%nat /\
  (let '(field, b, s, i) := lengthSerialize (descs ex_event) 9 0 in
   field = [240 + Z.of_nat (length b) / 256; Z.of_nat (length b) mod 256] /\
   GetUInt16 field = 61440 + Z.of_nat (length b) /\
   (0 <= i)%nat /\
   b = concat (firstn (i - 0) (skipn 0 (descs ex_event))) /\
   (length b + s + 2 = 9)%nat).
Proof.
  split; [lia|]. split; [lia|].
  apply (LengthSerializeFacts.lengthSerialize_spec (descs ex_event) 9 0); lia.
Defined.

Lemma eit_section_size_witness :
  (18 <= 30)%nat /\ Forall (fun p => (length (snd p) <= 30)%nat) (serialize 30 ex_eit).
Proof.
  split; [lia|]. apply (EITSizeFacts.eit_section_size 30 ex_eit). lia.
Defined.

End EITEx.

End ExtraExamples.
